(** * MP3Reader: the ID3 tag locator, frame walker and payload decoders

    A shallow embedding of [mp3_reader.hpp] (class [MP3Reader::MP3Reader]).

    The reader owns a byte buffer [data] of [size] bytes and every parsing
    function computes offsets into it.  The embedding keeps the buffer as a
    list of bytes and pointers into it as offsets; a dereference outside the
    buffer (undefined behaviour in the source) is an explicit outcome, so that
    the theorems can say when the code stays inside the buffer and when it
    does not.

    Integer widths follow the LP64 data model: [int] and [uint32_t] have 32
    bits, [size_t] has 64 bits.  The field [size] is an [int]; the embedding
    takes it to be the length of the buffer. *)

From Stdlib Require Import ZArith List Bool Lia.
From Stdlib Require Import Strings.Byte Strings.String.
Import ListNotations.
Open Scope Z_scope.

(** ** Outcomes of running a member function *)

Inductive outcome (A : Type) : Type :=
| Done (a : A)      (* the function returns [a] *)
| OutOfBounds       (* a dereference outside [data, data + size): undefined behaviour *)
| Timeout.          (* the loop counter of the embedding ran out *)

Arguments Done {A} a.
Arguments OutOfBounds {A}.
Arguments Timeout {A}.

Definition bind {A B : Type} (m : outcome A) (k : A -> outcome B) : outcome B :=
  match m with
  | Done a => k a
  | OutOfBounds => OutOfBounds
  | Timeout => Timeout
  end.

Notation "x <- m ;; k" := (bind m (fun x => k))
  (at level 61, m at next level, right associativity).
Notation "' p <- m ;; k" := (bind m (fun x => let p := x in k))
  (at level 61, p pattern, m at next level, right associativity).

(** ** Machine integers *)

Definition to_u32 (z : Z) : Z := z mod 2 ^ 32.      (* conversion to uint32_t *)
Definition to_size_t (z : Z) : Z := z mod 2 ^ 64.   (* conversion to size_t *)

(** ** The buffer *)

Definition buffer := list byte.

(** The members [data] and [size]. *)
Definition buf_size (data : buffer) : Z := Z.of_nat (List.length data).

(** A pointer held by the reader: null, or [data + off]. *)
Inductive ptr : Type :=
| nullptr
| data_plus (off : Z).

Definition u8 (b : byte) : Z := Z.of_N (Byte.to_N b).

(** [data[off]]: defined only inside the buffer. *)
Definition load (data : buffer) (off : Z) : outcome byte :=
  if off <? 0 then OutOfBounds
  else match nth_error data (Z.to_nat off) with
       | Some b => Done b
       | None => OutOfBounds
       end.

(** [std::string(p, n)] with [p = data + off]: copies [n] bytes. *)
Definition load_string (data : buffer) (off n : Z) : outcome (list byte) :=
  if (0 <=? off) && (0 <=? n) && (off + n <=? buf_size data)
  then Done (firstn (Z.to_nat n) (skipn (Z.to_nat off) data))
  else OutOfBounds.

(** Sizes of the overlaid structures (all members are bytes, no padding). *)
Definition sizeof_ID3v1Tag : Z := 3 + 30 + 30 + 30 + 4 + 30 + 1.
Definition sizeof_ID3v2TagHeader : Z := 3 + 1 + 1 + 1 + 4.
Definition sizeof_ID3v2TagFrameHeader : Z := 4 + 4 + 2.

(** Offsets of the members read by the code. *)
Definition off_version_major : Z := 3.   (* ID3v2TagHeader::version_major *)
Definition off_tag_size : Z := 6.        (* ID3v2TagHeader::size *)
Definition off_frame_size : Z := 4.      (* ID3v2TagFrameHeader::size *)

(** ** C strings *)

Definition NUL : byte := x00.

Definition is_nul (b : byte) : bool := Byte.eqb b NUL.

(** The characters of a C string stored in [buf], up to its terminator. *)
Fixpoint c_str (buf : list byte) : list byte :=
  match buf with
  | [] => []
  | b :: rest => if is_nul b then [] else b :: c_str rest
  end.

Fixpoint bytes_eqb (a b : list byte) : bool :=
  match a, b with
  | [], [] => true
  | x :: a', y :: b' => Byte.eqb x y && bytes_eqb a' b'
  | _, _ => false
  end.

(** [strcmp(buf, lit) == 0] for a NUL-terminated [buf] and a literal [lit]. *)
Definition strcmp_eq (buf : list byte) (lit : string) : bool :=
  bytes_eqb (c_str buf) (list_byte_of_string lit).

(** ** Size codec *)

(** [size7bitsToNormal]: the bytes are promoted to [int], shifted and or-ed;
    the result is converted to [uint32_t]. *)
Definition size7bitsToNormal (s0 s1 s2 s3 : byte) : Z :=
  to_u32 (Z.lor (Z.lor (Z.lor (Z.shiftl (u8 s0) 21) (Z.shiftl (u8 s1) 14))
                       (Z.shiftl (u8 s2) 7))
                (u8 s3)).

(** [size8bitsToNormal]. *)
Definition size8bitsToNormal (s0 s1 s2 s3 : byte) : Z :=
  to_u32 (Z.lor (Z.lor (Z.lor (Z.shiftl (u8 s0) 24) (Z.shiftl (u8 s1) 16))
                       (Z.shiftl (u8 s2) 8))
                (u8 s3)).

(** The four bytes of a [size] member at [data + off]. *)
Definition load_size (data : buffer) (off : Z) (codec : byte -> byte -> byte -> byte -> Z)
  : outcome Z :=
  s0 <- load data off ;;
  s1 <- load data (off + 1) ;;
  s2 <- load data (off + 2) ;;
  s3 <- load data (off + 3) ;;
  Done (codec s0 s1 s2 s3).

(** [getTagSize(tagHeader)]. *)
Definition getTagSize (data : buffer) (tagHeader : ptr) : outcome Z :=
  match tagHeader with
  | nullptr => OutOfBounds
  | data_plus t => load_size data (t + off_tag_size) size7bitsToNormal
  end.

(** [getFrameSize(tagHeader, frameHeader)]. *)
Definition getFrameSize (data : buffer) (tagHeader frameHeader : ptr) : outcome Z :=
  match tagHeader, frameHeader with
  | data_plus t, data_plus f =>
      version_major <- load data (t + off_version_major) ;;
      if u8 version_major =? 4
      then load_size data (f + off_frame_size) size7bitsToNormal
      else load_size data (f + off_frame_size) size8bitsToNormal
  | _, _ => OutOfBounds
  end.

(** ** Tag locator *)

(** [getID3v1Tag()]. *)
Definition getID3v1Tag (data : buffer) : outcome ptr :=
  if to_size_t (buf_size data) <? sizeof_ID3v1Tag then Done nullptr
  else
    let tag := buf_size data - sizeof_ID3v1Tag in
    t0 <- load data tag ;;
    t1 <- load data (tag + 1) ;;
    t2 <- load data (tag + 2) ;;
    let tag_id := [t0; t1; t2; NUL] in
    if strcmp_eq tag_id "TAG" then Done (data_plus tag) else Done nullptr.

(** [isID3v2TagHeader(data + p)]; [&&] evaluates left to right and stops at
    the first false operand. *)
Definition isID3v2TagHeader (data : buffer) (p : Z) : outcome bool :=
  h0 <- load data p ;;
  if Byte.eqb h0 "I"%byte then
    h1 <- load data (p + 1) ;;
    if Byte.eqb h1 "D"%byte then
      h2 <- load data (p + 2) ;;
      Done (Byte.eqb h2 "3"%byte)
    else Done false
  else Done false.

(** The loop of [getID3v2Tags]: [i] is the loop variable, [tags] the vector
    built so far.  The bound [size - sizeof(ID3v2TagHeader)] is computed in
    [size_t], so it wraps around when [size < 10].  An iteration that
    continues has read [data[i]], hence [i < size] and [i++] stays within
    [int]. *)
Fixpoint getID3v2Tags_loop (fuel : nat) (data : buffer) (i : Z) (tags : list ptr)
  : outcome (list ptr) :=
  match fuel with
  | O => Timeout
  | S fuel' =>
      if to_size_t i <? to_size_t (to_size_t (buf_size data) - sizeof_ID3v2TagHeader)
      then
        is_header <- isID3v2TagHeader data i ;;
        getID3v2Tags_loop fuel' data (i + 1)
          (if is_header then tags ++ [data_plus i] else tags)
      else Done tags
  end.

(** [getID3v2Tags()].  Every iteration dereferences [data + i] and [i] grows
    by one, so [size + 1] iterations are enough (lemma [getID3v2Tags_terminates]). *)
Definition getID3v2Tags (data : buffer) : outcome (list ptr) :=
  getID3v2Tags_loop (S (List.length data)) data 0 [].

(** ** Frame walker *)

(** The [while] loop of [getID3v2TagFrames]: [pos] is a [uint32_t], [frames]
    the vector built so far.  [pos] wraps around modulo [2^32] and may come
    back to an earlier value, so the source loop need not terminate: [fuel]
    bounds the number of iterations. *)
Fixpoint getID3v2TagFrames_loop (fuel : nat) (data : buffer) (tagHeader : ptr)
    (start_pos tag_size pos : Z) (frames : list ptr) : outcome (list ptr) :=
  match fuel with
  | O => Timeout
  | S fuel' =>
      if to_size_t pos <?
           to_size_t (to_size_t (to_u32 (start_pos + tag_size)) - sizeof_ID3v2TagFrameHeader)
      then
        if to_size_t (buf_size data) <? to_size_t (to_size_t pos + sizeof_ID3v2TagFrameHeader)
        then Done frames
        else
          let frameHeader := data_plus pos in
          h0 <- load data pos ;;
          if u8 h0 =? 0 then Done frames
          else
            let frames := frames ++ [frameHeader] in
            frame_size <- getFrameSize data tagHeader frameHeader ;;
            let pos :=
              to_u32 (to_size_t (to_size_t pos
                                 + to_size_t (sizeof_ID3v2TagFrameHeader + to_size_t frame_size))) in
            getID3v2TagFrames_loop fuel' data tagHeader start_pos tag_size pos frames
      else Done frames
  end.

(** [getID3v2TagFrames(tagHeader)]. *)
Definition getID3v2TagFrames (fuel : nat) (data : buffer) (tagHeader : ptr)
  : outcome (list ptr) :=
  match tagHeader with
  | nullptr => Done []
  | data_plus t =>
      let start_pos := to_u32 (to_size_t (to_size_t t + sizeof_ID3v2TagHeader)) in
      let pos := start_pos in
      tag_size <- getTagSize data tagHeader ;;
      getID3v2TagFrames_loop fuel data tagHeader start_pos tag_size pos []
  end.

(** [getFrameData(frameHeader)]. *)
Definition getFrameData (frameHeader : ptr) : ptr :=
  match frameHeader with
  | nullptr => nullptr
  | data_plus f => data_plus (f + sizeof_ID3v2TagFrameHeader)
  end.

(** ** Payload decoders *)

(** The UTF-16 branch of [getTextFrameData]: [for (i = 0; i < frame_size; i += 2)]. *)
Fixpoint utf16_text_loop (fuel : nat) (data : buffer) (frame_data frame_size i : Z)
    (result : list byte) : outcome (list byte) :=
  match fuel with
  | O => Timeout
  | S fuel' =>
      if i <? frame_size then
        c <- load data (frame_data + i) ;;
        let result :=
          if negb (u8 c =? 0) && (u8 c <? 128) then result ++ [c] else result in
        utf16_text_loop fuel' data frame_data frame_size (to_u32 (i + 2)) result
      else Done result
  end.

(** [getTextFrameData(tagHeader, frameHeader)].  The loop reads
    [frame_data[i]] at every iteration, so [size + 1] iterations are enough
    (lemma [getTextFrameData_not_Timeout]). *)
Definition getTextFrameData (data : buffer) (tagHeader frameHeader : ptr)
  : outcome (list byte) :=
  let result : list byte := [] in
  match getFrameData frameHeader with
  | nullptr => Done result    (* [frameHeader] is null: [return result] *)
  | data_plus frame_data =>
      frame_size <- getFrameSize data tagHeader frameHeader ;;
      encoding <- load data frame_data ;;
      (* skip encoding *)
      let frame_data := frame_data + 1 in
      let frame_size := to_u32 (frame_size - 1) in
      if u8 encoding =? 0 then
        load_string data frame_data frame_size
      else if (u8 encoding =? 1) || (u8 encoding =? 2) then
        utf16_text_loop (S (List.length data)) data frame_data frame_size 0 result
      else if u8 encoding =? 3 then
        load_string data frame_data frame_size
      else Done result
  end.

(** The mime type loop of [getPictureFrameData]; returns [data_pos] and
    [mime_type] as the loop leaves them. *)
Fixpoint mime_type_loop (fuel : nat) (data : buffer) (frame_data frame_size data_pos : Z)
    (mime_type : list byte) : outcome (Z * list byte) :=
  match fuel with
  | O => Timeout
  | S fuel' =>
      if data_pos <? frame_size then
        c <- load data (frame_data + data_pos) ;;
        if negb (u8 c =? 0)
        then mime_type_loop fuel' data frame_data frame_size (to_u32 (data_pos + 1))
               (mime_type ++ [c])
        else Done (data_pos, mime_type)
      else Done (data_pos, mime_type)
  end.

(** The description loop for the one-byte encodings (ISO-8859-1 and UTF-8;
    the source has the same loop in both branches). *)
Fixpoint skip_info_loop (fuel : nat) (data : buffer) (frame_data frame_size data_pos : Z)
  : outcome Z :=
  match fuel with
  | O => Timeout
  | S fuel' =>
      if data_pos <? frame_size then
        c <- load data (frame_data + data_pos) ;;
        if negb (u8 c =? 0)
        then skip_info_loop fuel' data frame_data frame_size (to_u32 (data_pos + 1))
        else Done data_pos
      else Done data_pos
  end.

(** The description loop for UTF-16: stops at two zero bytes. *)
Fixpoint skip_info16_loop (fuel : nat) (data : buffer) (frame_data frame_size data_pos : Z)
  : outcome Z :=
  match fuel with
  | O => Timeout
  | S fuel' =>
      if data_pos <? to_u32 (frame_size - 1) then
        c0 <- load data (frame_data + data_pos) ;;
        terminator <-
          (if u8 c0 =? 0
           then c1 <- load data (frame_data + to_u32 (data_pos + 1)) ;; Done (u8 c1 =? 0)
           else Done false) ;;
        if negb terminator
        then skip_info16_loop fuel' data frame_data frame_size (to_u32 (data_pos + 2))
        else Done data_pos
      else Done data_pos
  end.

Definition default_mime_type : list byte := list_byte_of_string "image/jpeg".

Definition is_empty (s : list byte) : bool :=
  match s with [] => true | _ => false end.

(** [getPictureFrameData(tagHeader, frameHeader, mime_type, image_size)]:
    the returned pointer, and the values left in the two reference
    parameters.  Each loop reads [frame_data[data_pos]] at every iteration,
    so [size + 1] iterations are enough (lemma
    [getPictureFrameData_not_Timeout]). *)
Definition getPictureFrameData (data : buffer) (tagHeader frameHeader : ptr)
  : outcome (ptr * list byte * Z) :=
  match getFrameData frameHeader with
  | nullptr => OutOfBounds    (* [frameHeader] is null and is dereferenced *)
  | data_plus frame_data =>
      let fuel := S (List.length data) in
      frame_size <- getFrameSize data tagHeader frameHeader ;;
      encoding <- load data frame_data ;;
      let data_pos := 1 in
      (* Mime type *)
      let mime_type : list byte := [] in
      '(data_pos, mime_type) <- mime_type_loop fuel data frame_data frame_size data_pos mime_type ;;
      let data_pos := to_u32 (data_pos + 1) in
      let mime_type := if is_empty mime_type then default_mime_type else mime_type in
      (* Picture type skip (1 byte) *)
      let data_pos := to_u32 (data_pos + 1) in
      (* skip info *)
      data_pos <-
        (if u8 encoding =? 0 then
           data_pos <- skip_info_loop fuel data frame_data frame_size data_pos ;;
           Done (to_u32 (data_pos + 1))
         else if (u8 encoding =? 1) || (u8 encoding =? 2) then
           data_pos <- skip_info16_loop fuel data frame_data frame_size data_pos ;;
           Done (to_u32 (data_pos + 2))
         else if u8 encoding =? 3 then
           data_pos <- skip_info_loop fuel data frame_data frame_size data_pos ;;
           Done (to_u32 (data_pos + 1))
         else Done data_pos) ;;
      (* Image data *)
      let image_size := to_u32 (frame_size - data_pos) in
      let image_data := data_plus (frame_data + data_pos) in
      Done (image_data, mime_type, image_size)
  end.

(** ** Metadata assembler *)

(** A member without initializer: its value is indeterminate until assigned. *)
Inductive value (A : Type) : Type :=
| Indeterminate
| Known (a : A).

Arguments Indeterminate {A}.
Arguments Known {A} a.

Record MP3_Metadata : Type := mkMetadata {
  title : list byte;
  artist : list byte;
  album : list byte;
  year : list byte;
  track_num : list byte;
  genre : list byte;
  mime_type : list byte;
  description : list byte;
  image_data : value ptr;
  image_size : value Z
}.

(** [MP3_Metadata metadata;]: the strings are default-constructed, the
    pointer and the integer are left uninitialized. *)
Definition new_metadata : MP3_Metadata :=
  mkMetadata [] [] [] [] [] [] [] [] Indeterminate Indeterminate.

Definition set_title (s : list byte) (m : MP3_Metadata) : MP3_Metadata :=
  mkMetadata s (artist m) (album m) (year m) (track_num m) (genre m)
             (mime_type m) (description m) (image_data m) (image_size m).
Definition set_artist (s : list byte) (m : MP3_Metadata) : MP3_Metadata :=
  mkMetadata (title m) s (album m) (year m) (track_num m) (genre m)
             (mime_type m) (description m) (image_data m) (image_size m).
Definition set_album (s : list byte) (m : MP3_Metadata) : MP3_Metadata :=
  mkMetadata (title m) (artist m) s (year m) (track_num m) (genre m)
             (mime_type m) (description m) (image_data m) (image_size m).
Definition set_year (s : list byte) (m : MP3_Metadata) : MP3_Metadata :=
  mkMetadata (title m) (artist m) (album m) s (track_num m) (genre m)
             (mime_type m) (description m) (image_data m) (image_size m).
Definition set_track_num (s : list byte) (m : MP3_Metadata) : MP3_Metadata :=
  mkMetadata (title m) (artist m) (album m) (year m) s (genre m)
             (mime_type m) (description m) (image_data m) (image_size m).
Definition set_genre (s : list byte) (m : MP3_Metadata) : MP3_Metadata :=
  mkMetadata (title m) (artist m) (album m) (year m) (track_num m) s
             (mime_type m) (description m) (image_data m) (image_size m).
Definition set_picture (p : ptr) (mime : list byte) (sz : Z) (m : MP3_Metadata)
  : MP3_Metadata :=
  mkMetadata (title m) (artist m) (album m) (year m) (track_num m) (genre m)
             mime (description m) (Known p) (Known sz).

(** [frame_id] after [memcpy(frame_id, frame->header, 4)]; its fifth byte
    stays zero. *)
Definition load_frame_id (data : buffer) (frame : ptr) : outcome (list byte) :=
  match frame with
  | nullptr => OutOfBounds
  | data_plus f =>
      h0 <- load data f ;;
      h1 <- load data (f + 1) ;;
      h2 <- load data (f + 2) ;;
      h3 <- load data (f + 3) ;;
      Done [h0; h1; h2; h3; NUL]
  end.

(** The body of the inner loop of [getMetadata]. *)
Definition getMetadata_frame (data : buffer) (tag frame : ptr) (metadata : MP3_Metadata)
  : outcome MP3_Metadata :=
  frame_id <- load_frame_id data frame ;;
  if strcmp_eq frame_id "TIT2" then
    s <- getTextFrameData data tag frame ;; Done (set_title s metadata)
  else if strcmp_eq frame_id "TPE1" then
    s <- getTextFrameData data tag frame ;; Done (set_artist s metadata)
  else if strcmp_eq frame_id "TALB" then
    s <- getTextFrameData data tag frame ;; Done (set_album s metadata)
  else if strcmp_eq frame_id "TYER" || strcmp_eq frame_id "TDRC" then
    s <- getTextFrameData data tag frame ;; Done (set_year s metadata)
  else if strcmp_eq frame_id "TRCK" then
    s <- getTextFrameData data tag frame ;; Done (set_track_num s metadata)
  else if strcmp_eq frame_id "TCON" then
    s <- getTextFrameData data tag frame ;; Done (set_genre s metadata)
  else if strcmp_eq frame_id "APIC" then
    '(image_data, mime_type, image_size) <- getPictureFrameData data tag frame ;;
    Done (set_picture image_data mime_type image_size metadata)
  else Done metadata.

(** [for (auto frame: tag_frames)]. *)
Fixpoint getMetadata_frames (data : buffer) (tag : ptr) (tag_frames : list ptr)
    (metadata : MP3_Metadata) : outcome MP3_Metadata :=
  match tag_frames with
  | [] => Done metadata
  | frame :: rest =>
      metadata <- getMetadata_frame data tag frame metadata ;;
      getMetadata_frames data tag rest metadata
  end.

(** [for (auto tag: tags)]. *)
Fixpoint getMetadata_tags (fuel : nat) (data : buffer) (tags : list ptr)
    (metadata : MP3_Metadata) : outcome MP3_Metadata :=
  match tags with
  | [] => Done metadata
  | tag :: rest =>
      tag_frames <- getID3v2TagFrames fuel data tag ;;
      metadata <- getMetadata_frames data tag tag_frames metadata ;;
      getMetadata_tags fuel data rest metadata
  end.

(** [getMetadata()]; [fuel] bounds the iterations of each frame walk. *)
Definition getMetadata (fuel : nat) (data : buffer) : outcome MP3_Metadata :=
  let metadata := new_metadata in
  tags <- getID3v2Tags data ;;
  getMetadata_tags fuel data tags metadata.

(** ** Reference definitions

    Definitions that follow the wording of the specification, to be compared
    with the code above, and the buffers used as concrete inputs. *)

(** The synchsafe value as the specification words it: every byte
    contributes its low seven bits only. *)
Definition synchsafe_low7 (s0 s1 s2 s3 : byte) : Z :=
  Z.lor (Z.lor (Z.lor (Z.shiftl (Z.land (u8 s0) 127) 21) (Z.shiftl (Z.land (u8 s1) 127) 14))
               (Z.shiftl (Z.land (u8 s2) 127) 7))
        (Z.land (u8 s3) 127).

(** The 16-bit code units of a UTF-16 payload, in payload order. *)
Fixpoint utf16_code_units (big_endian : bool) (payload : list byte) : list Z :=
  match payload with
  | b0 :: b1 :: rest =>
      (if big_endian then u8 b0 * 256 + u8 b1 else u8 b1 * 256 + u8 b0)
        :: utf16_code_units big_endian rest
  | _ => []
  end.

(** The code units in the range 1..127, as the specification words the
    UTF-16 text decoding. *)
Definition ascii_code_units (big_endian : bool) (payload : list byte) : list Z :=
  filter (fun cu => (1 <=? cu) && (cu <=? 127)) (utf16_code_units big_endian payload).

(** The bytes at the even offsets 0, 2, 4, ... of a payload. *)
Fixpoint even_bytes (payload : list byte) : list byte :=
  match payload with
  | [] => []
  | b0 :: rest => b0 :: match rest with
                        | [] => []
                        | _ :: rest' => even_bytes rest'
                        end
  end.

(** The test of the UTF-16 loop: [c != 0 && c < 128]. *)
Definition is_ascii (c : byte) : bool := negb (u8 c =? 0) && (u8 c <? 128).

(** The [n] bytes of the buffer from offset [off] on (a frame body, a field). *)
Definition slice (data : buffer) (off n : Z) : list byte :=
  firstn (Z.to_nat n) (skipn (Z.to_nat off) data).

Definition ptr_offset (p : ptr) : option Z :=
  match p with
  | nullptr => None
  | data_plus off => Some off
  end.

(** Pointers in ascending order of their offsets. *)
Inductive ascending : list ptr -> Prop :=
| ascending_nil : ascending []
| ascending_cons off ps :
    ascending ps ->
    (forall off', In (data_plus off') ps -> off < off') ->
    ascending (data_plus off :: ps).

(** The offsets [i] with [0 <= i < size - 10] at which the buffer holds the
    three bytes "ID3", in ascending order. *)
Definition id3_offsets (data : buffer) : list Z :=
  filter (fun i => bytes_eqb (slice data i 3) (list_byte_of_string "ID3"))
         (map Z.of_nat (seq 0 (List.length data - 10))).

(** The 10-byte header of [frame] lies inside the buffer and ends before
    the offset [tag_end]. *)
Definition header_inside (data : buffer) (tag_end : Z) (frame : ptr) : Prop :=
  exists f, frame = data_plus f
            /\ 0 <= f /\ f + 10 <= buf_size data /\ f + 10 < tag_end.

(** The fields of [MP3_Metadata] that [getMetadata] assigns. *)
Inductive field : Type :=
| Title | Artist | Album | Year | Track | Genre | Picture.

(** The field a frame identifier stands for. *)
Definition field_of_id (id : list byte) : option field :=
  if bytes_eqb id (list_byte_of_string "TIT2") then Some Title
  else if bytes_eqb id (list_byte_of_string "TPE1") then Some Artist
  else if bytes_eqb id (list_byte_of_string "TALB") then Some Album
  else if bytes_eqb id (list_byte_of_string "TYER") then Some Year
  else if bytes_eqb id (list_byte_of_string "TDRC") then Some Year
  else if bytes_eqb id (list_byte_of_string "TRCK") then Some Track
  else if bytes_eqb id (list_byte_of_string "TCON") then Some Genre
  else if bytes_eqb id (list_byte_of_string "APIC") then Some Picture
  else None.

(** The four identifier bytes of the frame header at [frame]. *)
Definition frame_header_id (data : buffer) (frame : ptr) : list byte :=
  match frame with
  | nullptr => []
  | data_plus f => slice data f 4
  end.

Definition frame_field (data : buffer) (frame : ptr) : option field :=
  field_of_id (frame_header_id data frame).

(** Field [fld] of record [m] holds what the decoder returns for the frame
    [frame] of the tag [tag]. *)
Definition holds_decoded (data : buffer) (tag frame : ptr) (fld : field) (m : MP3_Metadata)
  : Prop :=
  match fld with
  | Title => getTextFrameData data tag frame = Done (title m)
  | Artist => getTextFrameData data tag frame = Done (artist m)
  | Album => getTextFrameData data tag frame = Done (album m)
  | Year => getTextFrameData data tag frame = Done (year m)
  | Track => getTextFrameData data tag frame = Done (track_num m)
  | Genre => getTextFrameData data tag frame = Done (genre m)
  | Picture =>
      exists p sz,
        getPictureFrameData data tag frame = Done (p, mime_type m, sz)
        /\ image_data m = Known p /\ image_size m = Known sz
  end.

(** The frames of all tags in the order [getMetadata] visits them: tags in
    the order of [getID3v2Tags], the frames of a tag in the order of
    [getID3v2TagFrames]; each frame paired with its tag. *)
Fixpoint scan_tags (fuel : nat) (data : buffer) (tags : list ptr)
  : outcome (list (ptr * ptr)) :=
  match tags with
  | [] => Done []
  | tag :: rest =>
      tag_frames <- getID3v2TagFrames fuel data tag ;;
      later <- scan_tags fuel data rest ;;
      Done (map (pair tag) tag_frames ++ later)
  end.

(** What a field of the record holds; the picture consists of the mime
    type, the pointer and the size. *)
Definition field_content (fld : field) (m : MP3_Metadata)
  : list byte * value ptr * value Z :=
  match fld with
  | Title => (title m, Indeterminate, Indeterminate)
  | Artist => (artist m, Indeterminate, Indeterminate)
  | Album => (album m, Indeterminate, Indeterminate)
  | Year => (year m, Indeterminate, Indeterminate)
  | Track => (track_num m, Indeterminate, Indeterminate)
  | Genre => (genre m, Indeterminate, Indeterminate)
  | Picture => (mime_type m, image_data m, image_size m)
  end.

(** The loop body of [getMetadata] run over a sequence of frames, each with
    its tag. *)
Fixpoint assemble (data : buffer) (scanned : list (ptr * ptr)) (metadata : MP3_Metadata)
  : outcome MP3_Metadata :=
  match scanned with
  | [] => Done metadata
  | (tag, frame) :: rest =>
      metadata <- getMetadata_frame data tag frame metadata ;;
      assemble data rest metadata
  end.

(** *** Concrete buffers *)

Definition bytes_of (s : string) : list byte := list_byte_of_string s.
Definition zeros (n : nat) : list byte := repeat NUL n.

(** An ID3v2.3 tag of declared size 32 with one TIT2 frame that declares 64
    bytes of body; the buffer ends 2 bytes into that body. *)
Definition truncated_buffer : buffer :=
  bytes_of "ID3" ++ [x03; x00; x00; x00; x00; x00; x20]
  ++ bytes_of "TIT2" ++ [x00; x00; x00; x40; x00; x00]
  ++ [x00; x41].

(** The same with an APIC frame: encoding 0 and a mime type that is still
    running when the buffer ends. *)
Definition truncated_apic_buffer : buffer :=
  bytes_of "ID3" ++ [x03; x00; x00; x00; x00; x00; x20]
  ++ bytes_of "APIC" ++ [x00; x00; x00; x40; x00; x00]
  ++ [x00] ++ bytes_of "image/png".

(** An ID3v2.3 tag of declared size 12 with one TIT2 frame of 20 bytes, all
    of them in the buffer. *)
Definition overrun_buffer : buffer :=
  bytes_of "ID3" ++ [x03; x00; x00; x00; x00; x00; x0c]
  ++ bytes_of "TIT2" ++ [x00; x00; x00; x14; x00; x00]
  ++ [x00] ++ bytes_of "Nineteen characters".

(** An ID3v2.3 tag whose first frame declares a body of [2^32 - 10] bytes:
    adding the frame length to [pos] gives [pos] again. *)
Definition looping_buffer : buffer :=
  bytes_of "ID3" ++ [x03; x00; x00; x00; x00; x00; x20]
  ++ bytes_of "TIT2" ++ [xff; xff; xff; xf6; x00; x00]
  ++ zeros 32.

(** A tag header of major version 5 and a frame whose size bytes are 0 0 1 0. *)
Definition v5_buffer : buffer :=
  bytes_of "ID3" ++ [x05; x00; x00; x00; x00; x00; x20]
  ++ bytes_of "TIT2" ++ [x00; x00; x01; x00; x00; x00]
  ++ zeros 32.

(** An ID3v2.3 tag with a TIT2 frame in encoding 1: byte-order mark FF FE,
    then the little-endian code units 0x0441 and 0x0042. *)
Definition utf16le_buffer : buffer :=
  bytes_of "ID3" ++ [x03; x00; x00; x00; x00; x00; x20]
  ++ bytes_of "TIT2" ++ [x00; x00; x00; x07; x00; x00]
  ++ [x01; xff; xfe; x41; x04; x42; x00]
  ++ zeros 20.

(** The same with encoding 2: the big-endian code units 0x0041 and 0x0042. *)
Definition utf16be_buffer : buffer :=
  bytes_of "ID3" ++ [x03; x00; x00; x00; x00; x00; x20]
  ++ bytes_of "TIT2" ++ [x00; x00; x00; x05; x00; x00]
  ++ [x02; x00; x41; x00; x42]
  ++ zeros 20.

(** An APIC frame of 3 bytes: encoding 0, then "ab" with no terminator
    inside the frame. *)
Definition apic_unterminated_buffer : buffer :=
  bytes_of "ID3" ++ [x03; x00; x00; x00; x00; x00; x20]
  ++ bytes_of "APIC" ++ [x00; x00; x00; x03; x00; x00]
  ++ [x00; x61; x62]
  ++ zeros 20.

(** An APIC frame with mime type "image/png", picture type 3, an empty
    description and 4 image bytes. *)
Definition apic_png_buffer : buffer :=
  bytes_of "ID3" ++ [x03; x00; x00; x00; x00; x00; x28]
  ++ bytes_of "APIC" ++ [x00; x00; x00; x11; x00; x00]
  ++ [x00] ++ bytes_of "image/png" ++ [x00; x03; x00] ++ [x89; x50; x4e; x47]
  ++ zeros 20.

(** Two ID3v2.3 tags; the first has the TIT2 frames "One" and "Two", the
    second the TIT2 frame "Three". *)
Definition two_tags_buffer : buffer :=
  bytes_of "ID3" ++ [x03; x00; x00; x00; x00; x00; x26]
  ++ bytes_of "TIT2" ++ [x00; x00; x00; x04; x00; x00] ++ [x00] ++ bytes_of "One"
  ++ bytes_of "TIT2" ++ [x00; x00; x00; x04; x00; x00] ++ [x00] ++ bytes_of "Two"
  ++ zeros 10
  ++ bytes_of "ID3" ++ [x03; x00; x00; x00; x00; x00; x1a]
  ++ bytes_of "TIT2" ++ [x00; x00; x00; x06; x00; x00] ++ [x00] ++ bytes_of "Three"
  ++ zeros 20.

(** Five bytes, fewer than a tag header. *)
Definition short_buffer : buffer := bytes_of "hello".

(** Sixteen zero bytes: no tag at all. *)
Definition untagged_buffer : buffer := zeros 16.

(** A buffer that ends in an ID3v1 block: "TAG" and 125 more bytes. *)
Definition id3v1_buffer : buffer :=
  zeros 40 ++ bytes_of "TAG" ++ zeros 125.

(** ** MPEG frame header (diagnostic path) *)

(** [struct MP3FrameHeader]: thirteen bit-fields of [uint32_t], 32 bits in
    all.  The field [emphasis] is named [emphasis_bits] here, because the
    table below has the same name in the source. *)
Record MP3FrameHeader : Type := mkFrameHeader {
  sync : Z;             (* 11 bits *)
  version : Z;          (* 2 bits *)
  layer : Z;            (* 2 bits *)
  protection : Z;       (* 1 bit *)
  bitrate : Z;          (* 4 bits *)
  frequency : Z;        (* 2 bits *)
  padding : Z;          (* 1 bit *)
  private_bit : Z;      (* 1 bit *)
  mode : Z;             (* 2 bits *)
  mode_extension : Z;   (* 2 bits *)
  copyright : Z;        (* 1 bit *)
  original : Z;         (* 1 bit *)
  emphasis_bits : Z     (* 2 bits *)
}.

(** Every bit-field holds a value of its width. *)
Definition header_in_range (h : MP3FrameHeader) : Prop :=
  0 <= sync h < 2 ^ 11 /\ 0 <= version h < 4 /\ 0 <= layer h < 4
  /\ 0 <= protection h < 2 /\ 0 <= bitrate h < 16 /\ 0 <= frequency h < 4
  /\ 0 <= padding h < 2 /\ 0 <= private_bit h < 2 /\ 0 <= mode h < 4
  /\ 0 <= mode_extension h < 4 /\ 0 <= copyright h < 2 /\ 0 <= original h < 2
  /\ 0 <= emphasis_bits h < 4.

(** How the four bytes of the structure map to its bit-fields is left to
    the implementation by the language; the functions below take the
    mapping as a parameter. *)
Definition bitfield_layout : Type := byte -> byte -> byte -> byte -> MP3FrameHeader.

Definition bits (w from width : Z) : Z := Z.land (Z.shiftr w from) (Z.ones width).

(** The mapping of GCC and Clang on little-endian targets: the first
    bit-field takes the lowest bits of the 32-bit little-endian word. *)
Definition lsb_first_layout : bitfield_layout :=
  fun b0 b1 b2 b3 =>
    let w := u8 b0 + u8 b1 * 2 ^ 8 + u8 b2 * 2 ^ 16 + u8 b3 * 2 ^ 24 in
    mkFrameHeader (bits w 0 11) (bits w 11 2) (bits w 13 2) (bits w 15 1)
                  (bits w 16 4) (bits w 20 2) (bits w 22 1) (bits w 23 1)
                  (bits w 24 2) (bits w 26 2) (bits w 28 1) (bits w 29 1)
                  (bits w 30 2).

(** The checks of [isFrameHeader] on the bit-fields. *)
Definition accepted_header (h : MP3FrameHeader) : bool :=
  if negb (sync h =? 0x7FF) then false
  else if version h =? 1 then false
  else if layer h =? 0 then false
  else if bitrate h =? 0xF then false
  else if frequency h =? 3 then false
  else true.

(** [*reinterpret_cast<MP3FrameHeader*>(data + p)]. *)
Definition load_header (view : bitfield_layout) (data : buffer) (p : Z)
  : outcome MP3FrameHeader :=
  b0 <- load data p ;;
  b1 <- load data (p + 1) ;;
  b2 <- load data (p + 2) ;;
  b3 <- load data (p + 3) ;;
  Done (view b0 b1 b2 b3).

(** [isFrameHeader(data + p)]. *)
Definition isFrameHeader (view : bitfield_layout) (data : buffer) (p : Z) : outcome bool :=
  header <- load_header view data p ;;
  Done (accepted_header header).

(** Conversion of a [uint32_t] to [int]. *)
Definition to_int (z : Z) : Z := (z + 2 ^ 31) mod 2 ^ 32 - 2 ^ 31.

(** The loop of [getFirstFramePtr]; [size - 4] is computed in [int]. *)
Fixpoint getFirstFramePtr_loop (fuel : nat) (view : bitfield_layout) (data : buffer) (i : Z)
  : outcome ptr :=
  match fuel with
  | O => Timeout
  | S fuel' =>
      if i <? buf_size data - 4 then
        is_header <- isFrameHeader view data i ;;
        if is_header then Done (data_plus i)
        else getFirstFramePtr_loop fuel' view data (i + 1)
      else Done nullptr
  end.

(** [getFirstFramePtr(pos)]: [int i = pos].  The loop makes at most
    [size - 4] iterations, so [size + 1] are enough (lemma
    [getFirstFramePtr_loop_spec]). *)
Definition getFirstFramePtr (view : bitfield_layout) (data : buffer) (pos : Z) : outcome ptr :=
  getFirstFramePtr_loop (S (List.length data)) view data (to_int pos).

(** Bitrates for MPEG-1. *)
Definition bitratesMPEG1 : list (list Z) :=
  [ [0; 32; 64; 96; 128; 160; 192; 224; 256; 288; 320; 352; 384; 416; 448; 0];
    [0; 32; 48; 56; 64; 80; 96; 112; 128; 160; 192; 224; 256; 320; 384; 0];
    [0; 32; 40; 48; 56; 64; 80; 96; 112; 128; 160; 192; 224; 256; 320; 0] ].

(** Bitrates for MPEG-2/2.5.  The first row has 15 initializers in the
    source; its sixteenth element is zero-initialized. *)
Definition bitratesMPEG2 : list (list Z) :=
  [ [0; 32; 48; 56; 64; 80; 96; 112; 128; 160; 176; 192; 224; 256; 0; 0];
    [0; 8; 16; 24; 32; 40; 48; 56; 64; 80; 96; 112; 128; 144; 160; 0];
    [0; 8; 16; 24; 32; 40; 48; 56; 64; 80; 96; 112; 128; 144; 160; 0] ].

(** Frequencies. *)
Definition frequencies : list (list Z) :=
  [ [44100; 48000; 32000; 0];
    [22050; 24000; 16000; 0];
    [0; 0; 0; 0];
    [11025; 12000; 8000; 0] ].

Definition versions : list string := ["MPEG 2.5"; "Reserved"; "MPEG 2  "; "MPEG 1  "]%string.
Definition channelMode : list string := ["Stereo"; "Joint stereo"; "Dual Mono"; "Mono"]%string.
Definition emphasis : list string := ["none"; "50/15 ms"; "Reserved"; "CCIT J.17"]%string.

(** A computation on the header either gives a value or is undefined:
    an index outside a table, or a division by zero. *)
Inductive computed (A : Type) : Type :=
| Value (a : A)
| BadIndex
| DivisionByZero.

Arguments Value {A} a.
Arguments BadIndex {A}.
Arguments DivisionByZero {A}.

Definition and_then {A B : Type} (c : computed A) (k : A -> computed B) : computed B :=
  match c with
  | Value a => k a
  | BadIndex => BadIndex
  | DivisionByZero => DivisionByZero
  end.

Notation "x <~ c ;; k" := (and_then c (fun x => k))
  (at level 61, c at next level, right associativity).

(** [table[i]]. *)
Definition at_index {A : Type} (table : list A) (i : Z) : computed A :=
  if i <? 0 then BadIndex
  else match nth_error table (Z.to_nat i) with
       | Some a => Value a
       | None => BadIndex
       end.

(** [table[i][j]]. *)
Definition at_index2 (table : list (list Z)) (i j : Z) : computed Z :=
  row <~ at_index table i ;; at_index row j.

(** Unsigned 32-bit division. *)
Definition udiv (a b : Z) : computed Z :=
  if b =? 0 then DivisionByZero else Value (a / b).

(** What [std::cout] receives after a label. *)
Inductive printed : Type :=
| Text (s : string)
| Number (n : Z).

(** The lines [printFirstFrame] writes for the header [h], as pairs of
    label and value.  The four table reads come first, as in the source. *)
Definition frame_report (h : MP3FrameHeader) : computed (list (string * printed)) :=
  bitrate_int <~ (if version h =? 3
                  then at_index2 bitratesMPEG1 (3 - layer h) (bitrate h)
                  else at_index2 bitratesMPEG2 (3 - layer h) (bitrate h)) ;;
  let bitrate := to_u32 bitrate_int in
  frequency_int <~ at_index2 frequencies (3 - version h) (frequency h) ;;
  let frequency := to_u32 frequency_int in
  version_name <~ at_index versions (version h) ;;
  mode_name <~ at_index channelMode (mode h) ;;
  emphasis_name <~ at_index emphasis (emphasis_bits h) ;;
  let bitrate' := to_u32 (bitrate * 1000) in
  frame_size <~
    (if layer h =? 3
     then q <~ udiv (to_u32 (12 * bitrate')) frequency ;;
          Value (to_u32 (to_u32 (q + padding h) * 4))
     else q <~ udiv (to_u32 (144 * bitrate')) frequency ;;
          Value (to_u32 (q + padding h))) ;;
  Value [ ("Version"%string, Text version_name);
          ("Layer"%string, Number (3 - layer h + 1));
          ("Protected"%string, Number (if protection h =? 0 then 1 else 0));
          ("Bitrate"%string, Number bitrate);
          ("Frequency"%string, Number frequency);
          ("Padding"%string, Number (padding h));
          ("Mode"%string, Text mode_name);
          ("Copyright"%string, Number (copyright h));
          ("Original"%string, Number (original h));
          ("Emphasis"%string, Text emphasis_name);
          ("Frame size"%string, Number frame_size) ].

(** [printFirstFrame()]: nothing is written when no frame is found. *)
Definition printFirstFrame (view : bitfield_layout) (data : buffer)
  : outcome (computed (list (string * printed))) :=
  frame <- getFirstFramePtr view data 0 ;;
  match frame with
  | nullptr => Done (Value [])
  | data_plus f =>
      header <- load_header view data f ;;
      Done (frame_report header)
  end.

(** ** Further reference definitions *)

(** A buffer with an accepted MPEG header at offset 3 (under
    [lsb_first_layout]: sync 0x7FF, version 3, layer 1, bitrate index 9). *)
Definition mpeg_buffer : buffer :=
  zeros 3 ++ [xff; xbf; x09; x00] ++ zeros 6.

(** The walk of [getID3v2TagFrames] from [pos] as a relation: the frames
    appended until one of the three exits of the loop is taken. *)
Inductive walked (data : buffer) (tag : ptr) (tag_end : Z) : Z -> list ptr -> Prop :=
| walked_stop pos :
    (tag_end <= pos + 10
     \/ buf_size data < pos + 10
     \/ exists h0, load data pos = Done h0 /\ u8 h0 = 0) ->
    walked data tag tag_end pos []
| walked_frame pos h0 frame_size rest :
    pos + 10 < tag_end ->
    pos + 10 <= buf_size data ->
    load data pos = Done h0 ->
    u8 h0 <> 0 ->
    getFrameSize data tag (data_plus pos) = Done frame_size ->
    walked data tag tag_end (to_u32 (pos + 10 + frame_size)) rest ->
    walked data tag tag_end pos (data_plus pos :: rest).

(** Each frame starts where the frame before it ends, modulo [2^32]. *)
Inductive chained (data : buffer) (tag : ptr) : list ptr -> Prop :=
| chained_nil : chained data tag []
| chained_one frame : chained data tag [frame]
| chained_next a frame_size b rest :
    getFrameSize data tag (data_plus a) = Done frame_size ->
    b = to_u32 (a + 10 + frame_size) ->
    chained data tag (data_plus b :: rest) ->
    chained data tag (data_plus a :: data_plus b :: rest).

(** ASCII text as UTF-16 code units, low byte first and high byte first. *)
Definition utf16le (text : list byte) : list byte := flat_map (fun c => [c; NUL]) text.
Definition utf16be (text : list byte) : list byte := flat_map (fun c => [NUL; c]) text.

(** A TIT2 frame with a declared body of 0 bytes, followed by other bytes. *)
Definition empty_frame_buffer : buffer :=
  bytes_of "ID3" ++ [x03; x00; x00; x00; x00; x00; x20]
  ++ bytes_of "TIT2" ++ [x00; x00; x00; x00; x00; x00]
  ++ zeros 32.

(** A TIT2 frame in encoding 0 with the payload "AB"; a TPE1 frame in
    encoding 1 with a byte-order mark and "Hi" in UTF-16LE; a TALB frame in
    encoding 2 with "Hi" in UTF-16BE. *)
Definition text_frames_buffer : buffer :=
  bytes_of "ID3" ++ [x03; x00; x00; x00; x00; x00; x40]
  ++ bytes_of "TIT2" ++ [x00; x00; x00; x03; x00; x00] ++ [x00] ++ bytes_of "AB"
  ++ bytes_of "TPE1" ++ [x00; x00; x00; x07; x00; x00]
  ++ [x01; xff; xfe] ++ utf16le (bytes_of "Hi")
  ++ bytes_of "TALB" ++ [x00; x00; x00; x05; x00; x00]
  ++ [x02] ++ utf16be (bytes_of "Hi")
  ++ zeros 32.

(** The number of bytes before the first two-byte unit 00 00 of a UTF-16
    string, counted unit by unit; the whole even part if there is none. *)
Fixpoint length16 (s : list byte) : nat :=
  match s with
  | b0 :: b1 :: rest => if is_nul b0 && is_nul b1 then 0%nat else S (S (length16 rest))
  | _ => 0%nat
  end.

(** Two-byte units laid out one after the other. *)
Definition units (us : list (byte * byte)) : list byte :=
  flat_map (fun u => [fst u; snd u]) us.

(** [data_pos] when [getPictureFrameData] computes the image, for a body
    of [fsize] bytes at [body] with encoding byte [encoding]. *)
Definition image_pos (data : buffer) (body fsize : Z) (encoding : byte) : Z :=
  let after_mime := 1 + Z.of_nat (List.length (c_str (slice data (body + 1) (fsize - 1)))) in
  let info := after_mime + 2 in
  let rest := slice data (body + info) (fsize - info) in
  if u8 encoding =? 0 then info + Z.of_nat (List.length (c_str rest)) + 1
  else if (u8 encoding =? 1) || (u8 encoding =? 2) then info + Z.of_nat (length16 rest) + 2
  else if u8 encoding =? 3 then info + Z.of_nat (List.length (c_str rest)) + 1
  else info.

(** An APIC frame in encoding 1: mime type "image/png", picture type 3, the
    description "Hi" in UTF-16LE with its mark, a terminator and 4 image
    bytes. *)
Definition apic_utf16_buffer : buffer :=
  bytes_of "ID3" ++ [x03; x00; x00; x00; x00; x00; x40]
  ++ bytes_of "APIC" ++ [x00; x00; x00; x18; x00; x00]
  ++ [x01] ++ bytes_of "image/png" ++ [x00; x03]
  ++ [xff; xfe] ++ utf16le (bytes_of "Hi") ++ [x00; x00]
  ++ [x89; x50; x4e; x47]
  ++ zeros 32.

(** What [getMetadata] keeps true of the record, frame after frame. *)
Definition picture_consistent (m : MP3_Metadata) : Prop :=
  description m = []
  /\ ((image_data m = Indeterminate /\ image_size m = Indeterminate /\ mime_type m = [])
      \/ (exists off sz, image_data m = Known (data_plus off)
                         /\ image_size m = Known sz /\ 0 <= sz < 2 ^ 32
                         /\ mime_type m <> [])).

(** An ID3v2.4 tag with the TIT2 frames "One" and "Two" (7-bit frame
    sizes). *)
Definition v4_buffer : buffer :=
  bytes_of "ID3" ++ [x04; x00; x00; x00; x00; x00; x26]
  ++ bytes_of "TIT2" ++ [x00; x00; x00; x04; x00; x00] ++ [x03] ++ bytes_of "One"
  ++ bytes_of "TIT2" ++ [x00; x00; x00; x04; x00; x00] ++ [x03] ++ bytes_of "Two"
  ++ zeros 20.



(** * Properties *)

(** ** Outcomes *)

Lemma bind_Done {A B : Type} (m : outcome A) (k : A -> outcome B) (b : B) :
  bind m k = Done b -> exists a, m = Done a /\ k a = Done b.
Proof.
  destruct m as [a | |]; simpl; intros H; try discriminate.
  exists a. split; [reflexivity | assumption].
Qed.

(** Splits an equation [bind m k = Done b] among the hypotheses. *)
Ltac bind_inv H :=
  let a := fresh "v" in
  let Ha := fresh "E" in
  apply bind_Done in H; destruct H as (a & Ha & H).

Lemma bind_not_Timeout {A B : Type} (m : outcome A) (k : A -> outcome B) :
  m <> Timeout -> (forall a, m = Done a -> k a <> Timeout) -> bind m k <> Timeout.
Proof.
  destruct m as [a | |]; simpl; intros Hm Hk; try congruence.
  apply Hk. reflexivity.
Qed.

(** ** Machine integers *)

Lemma to_u32_small (z : Z) : 0 <= z < 2 ^ 32 -> to_u32 z = z.
Proof. intros H. unfold to_u32. apply Z.mod_small. assumption. Qed.

Lemma to_size_t_small (z : Z) : 0 <= z < 2 ^ 64 -> to_size_t z = z.
Proof. intros H. unfold to_size_t. apply Z.mod_small. assumption. Qed.

Lemma to_u32_range (z : Z) : 0 <= to_u32 z < 2 ^ 32.
Proof. unfold to_u32. apply Z.mod_pos_bound. lia. Qed.

Lemma u8_range (b : byte) : 0 <= u8 b < 256.
Proof. unfold u8. pose proof (Byte.to_N_bounded b). lia. Qed.

Lemma u8_inj (a b : byte) : u8 a = u8 b -> a = b.
Proof.
  unfold u8. intros H. apply N2Z.inj in H.
  assert (Some a = Some b) as Hab by (rewrite <- !Byte.of_to_N, H; reflexivity).
  congruence.
Qed.

Lemma land_shiftl_small (a b n : Z) :
  0 <= n -> 0 <= b < 2 ^ n -> Z.land (Z.shiftl a n) b = 0.
Proof.
  intros Hn Hb. apply Z.bits_inj'. intros k Hk.
  rewrite Z.land_spec, Z.bits_0.
  destruct (Z.lt_ge_cases k n) as [Hlt | Hge].
  - rewrite Z.shiftl_spec_low by lia. reflexivity.
  - assert (Z.testbit b k = false) as ->; [|apply andb_false_r].
    destruct (Z.eq_dec b 0) as [-> | Hnz]; [apply Z.bits_0|].
    apply Z.bits_above_log2; [lia|].
    assert (Z.log2 b < n) by (apply Z.log2_lt_pow2; lia). lia.
Qed.

Lemma lor_high_low (a b n : Z) :
  0 <= n -> 0 <= b < 2 ^ n -> Z.lor (a * 2 ^ n) b = a * 2 ^ n + b.
Proof.
  intros Hn Hb. rewrite <- Z.shiftl_mul_pow2 by assumption.
  rewrite <- Z.lxor_lor by (apply land_shiftl_small; assumption).
  rewrite <- Z.add_nocarry_lxor by (apply land_shiftl_small; assumption).
  reflexivity.
Qed.

Lemma log2_below (a n : Z) : 0 < n -> 0 <= a < 2 ^ n -> Z.log2 a < n.
Proof.
  intros Hn Ha. destruct (Z.eq_dec a 0) as [-> | Hnz]; [simpl; lia|].
  apply Z.log2_lt_pow2; lia.
Qed.

Lemma lor_bound (a b n : Z) :
  0 <= n -> 0 <= a < 2 ^ n -> 0 <= b < 2 ^ n -> 0 <= Z.lor a b < 2 ^ n.
Proof.
  intros Hn Ha Hb.
  assert (0 <= Z.lor a b) by (apply Z.lor_nonneg; lia).
  split; [assumption|].
  destruct (Z.eq_dec (Z.lor a b) 0) as [-> | Hnz]; [lia|].
  assert (0 < n).
  { destruct (Z.eq_dec n 0) as [-> | ?]; [|lia].
    assert (a = 0) by (simpl in Ha; lia). assert (b = 0) by (simpl in Hb; lia).
    subst. simpl in Hnz. congruence. }
  apply Z.log2_lt_pow2; [lia|].
  rewrite Z.log2_lor by lia.
  apply Z.max_lub_lt; apply log2_below; assumption.
Qed.

(** ** Size codec *)

Lemma size7bitsToNormal_no_truncation (s0 s1 s2 s3 : byte) :
  0 <= Z.lor (Z.lor (Z.lor (Z.shiftl (u8 s0) 21) (Z.shiftl (u8 s1) 14))
                    (Z.shiftl (u8 s2) 7)) (u8 s3) < 2 ^ 29.
Proof.
  pose proof (u8_range s0). pose proof (u8_range s1).
  pose proof (u8_range s2). pose proof (u8_range s3).
  rewrite !Z.shiftl_mul_pow2 by lia. repeat apply lor_bound; lia.
Qed.

Lemma size7bitsToNormal_range (s0 s1 s2 s3 : byte) :
  0 <= size7bitsToNormal s0 s1 s2 s3 < 2 ^ 29.
Proof.
  pose proof (size7bitsToNormal_no_truncation s0 s1 s2 s3).
  unfold size7bitsToNormal, to_u32. rewrite Z.mod_small by lia. assumption.
Qed.

Lemma size8bitsToNormal_range (s0 s1 s2 s3 : byte) :
  0 <= size8bitsToNormal s0 s1 s2 s3 < 2 ^ 32.
Proof. apply to_u32_range. Qed.

Lemma size8bitsToNormal_big_endian (s0 s1 s2 s3 : byte) :
  size8bitsToNormal s0 s1 s2 s3
  = u8 s0 * 2 ^ 24 + u8 s1 * 2 ^ 16 + u8 s2 * 2 ^ 8 + u8 s3.
Proof.
  pose proof (u8_range s0). pose proof (u8_range s1).
  pose proof (u8_range s2). pose proof (u8_range s3).
  unfold size8bitsToNormal, to_u32.
  rewrite !Z.shiftl_mul_pow2 by lia.
  rewrite (lor_high_low (u8 s0) _ 24) by lia.
  replace (u8 s0 * 2 ^ 24 + u8 s1 * 2 ^ 16) with ((u8 s0 * 2 ^ 8 + u8 s1) * 2 ^ 16) by lia.
  rewrite (lor_high_low _ _ 16) by lia.
  replace ((u8 s0 * 2 ^ 8 + u8 s1) * 2 ^ 16 + u8 s2 * 2 ^ 8)
    with ((u8 s0 * 2 ^ 16 + u8 s1 * 2 ^ 8 + u8 s2) * 2 ^ 8) by lia.
  rewrite (lor_high_low _ _ 8) by lia.
  rewrite Z.mod_small by lia. lia.
Qed.

Lemma land_127_small (z : Z) : 0 <= z < 128 -> Z.land z 127 = z.
Proof.
  intros H. change 127 with (Z.ones 7).
  rewrite Z.land_ones by lia. apply Z.mod_small. lia.
Qed.

(** C10, the claim as worded fails: the byte 0xFF contributes its high bit
    too, so the code returns 255 where the low seven bits alone give 127. *)
Lemma size7bitsToNormal_high_bit_counts :
  size7bitsToNormal x00 x00 x00 xff <> synchsafe_low7 x00 x00 x00 xff.
Proof. vm_compute. discriminate. Qed.

(** C10 (amended): [size7bitsToNormal] is the unmasked expression
    [(s0<<21)|(s1<<14)|(s2<<7)|s3], with nothing lost in the conversion to
    32 bits; it agrees with the low-seven-bits reading whenever all four
    bytes are below 128; [size8bitsToNormal] is the big-endian value of the
    four bytes; the three sample values hold.  Both functions are total. *)
Theorem size_codec_values (s0 s1 s2 s3 : byte) :
  size7bitsToNormal s0 s1 s2 s3
  = Z.lor (Z.lor (Z.lor (Z.shiftl (u8 s0) 21) (Z.shiftl (u8 s1) 14))
                 (Z.shiftl (u8 s2) 7)) (u8 s3)
  /\ (u8 s0 < 128 -> u8 s1 < 128 -> u8 s2 < 128 -> u8 s3 < 128 ->
      size7bitsToNormal s0 s1 s2 s3 = synchsafe_low7 s0 s1 s2 s3)
  /\ size8bitsToNormal s0 s1 s2 s3
     = u8 s0 * 2 ^ 24 + u8 s1 * 2 ^ 16 + u8 s2 * 2 ^ 8 + u8 s3
  /\ size7bitsToNormal x00 x00 x00 x7f = 127
  /\ size7bitsToNormal x00 x00 x01 x00 = 128
  /\ size8bitsToNormal x00 x00 x00 xff = 255.
Proof.
  assert (size7bitsToNormal s0 s1 s2 s3
          = Z.lor (Z.lor (Z.lor (Z.shiftl (u8 s0) 21) (Z.shiftl (u8 s1) 14))
                         (Z.shiftl (u8 s2) 7)) (u8 s3)) as Hplain.
  { pose proof (size7bitsToNormal_no_truncation s0 s1 s2 s3).
    unfold size7bitsToNormal. apply to_u32_small. lia. }
  split; [exact Hplain|]. split; [|split; [apply size8bitsToNormal_big_endian|]].
  - intros H0 H1 H2 H3. rewrite Hplain. unfold synchsafe_low7.
    pose proof (u8_range s0). pose proof (u8_range s1).
    pose proof (u8_range s2). pose proof (u8_range s3).
    rewrite !land_127_small by lia. reflexivity.
  - repeat split; reflexivity.
Qed.

Lemma size_codec_values_witness :
  size7bitsToNormal x01 x02 x03 x04 = synchsafe_low7 x01 x02 x03 x04.
Proof.
  apply (size_codec_values x01 x02 x03 x04); vm_compute; reflexivity.
Defined.

(** ** Reading the buffer *)

Lemma buf_size_nonneg (data : buffer) : 0 <= buf_size data.
Proof. unfold buf_size. lia. Qed.

Lemma load_Done_iff (data : buffer) (off : Z) (b : byte) :
  load data off = Done b <-> 0 <= off /\ nth_error data (Z.to_nat off) = Some b.
Proof.
  unfold load. destruct (Z.ltb_spec off 0) as [Hneg | Hpos].
  - split; [discriminate | lia].
  - destruct (nth_error data (Z.to_nat off)) as [c |].
    + split; [intros [= ->]; auto | intros [_ [= ->]]; reflexivity].
    + split; [discriminate | intros [_ H]; discriminate].
Qed.

Lemma load_in_bounds (data : buffer) (off : Z) :
  0 <= off < buf_size data -> exists b, load data off = Done b.
Proof.
  intros H. unfold load, buf_size in *.
  destruct (Z.ltb_spec off 0); [lia|].
  destruct (nth_error data (Z.to_nat off)) as [b |] eqn:E; [eauto|].
  apply nth_error_None in E. lia.
Qed.

Lemma load_range (data : buffer) (off : Z) (b : byte) :
  load data off = Done b -> 0 <= off < buf_size data.
Proof.
  intros H. apply load_Done_iff in H. destruct H as [H0 H].
  assert (nth_error data (Z.to_nat off) <> None) as Hn by congruence.
  apply nth_error_Some in Hn. unfold buf_size. lia.
Qed.

Lemma load_outside (data : buffer) (off : Z) :
  buf_size data <= off -> load data off = OutOfBounds.
Proof.
  intros H. unfold load, buf_size in *.
  destruct (Z.ltb_spec off 0); [reflexivity|].
  destruct (nth_error data (Z.to_nat off)) eqn:E; [|reflexivity].
  assert (nth_error data (Z.to_nat off) <> None) as Hn by congruence.
  apply nth_error_Some in Hn. lia.
Qed.

Lemma load_not_Timeout (data : buffer) (off : Z) : load data off <> Timeout.
Proof.
  unfold load. destruct (off <? 0); [discriminate|].
  destruct (nth_error data (Z.to_nat off)); discriminate.
Qed.

Lemma skipn_nth_error {A : Type} (l : list A) (n : nat) (a : A) :
  nth_error l n = Some a -> skipn n l = a :: skipn (S n) l.
Proof.
  revert n. induction l as [| x l IH]; intros [| n] H; simpl in *; try discriminate.
  - congruence.
  - apply IH. assumption.
Qed.

Lemma slice_nil (data : buffer) (off n : Z) : n <= 0 -> slice data off n = [].
Proof.
  intros H. unfold slice. replace (Z.to_nat n) with 0%nat by lia. reflexivity.
Qed.

Lemma slice_step (data : buffer) (off n : Z) (b : byte) :
  load data off = Done b -> 0 < n ->
  slice data off n = b :: slice data (off + 1) (n - 1).
Proof.
  intros Hb Hn. apply load_Done_iff in Hb. destruct Hb as [Hoff Hb].
  unfold slice. rewrite (skipn_nth_error _ _ _ Hb).
  replace (Z.to_nat n) with (S (Z.to_nat (n - 1))) by lia.
  replace (Z.to_nat (off + 1)) with (S (Z.to_nat off)) by lia.
  reflexivity.
Qed.

Lemma slice_length (data : buffer) (off n : Z) :
  0 <= off -> 0 <= n -> off + n <= buf_size data ->
  List.length (slice data off n) = Z.to_nat n.
Proof.
  intros Hoff Hn Hle. unfold slice, buf_size in *.
  rewrite length_firstn, length_skipn. lia.
Qed.

(** Inside the buffer [std::string(p, n)] is the slice. *)
Lemma load_string_slice (data : buffer) (off n : Z) :
  0 <= off -> 0 <= n -> off + n <= buf_size data ->
  load_string data off n = Done (slice data off n).
Proof.
  intros Hoff Hn Hle. unfold load_string.
  destruct (Z.leb_spec 0 off); [|lia]. destruct (Z.leb_spec 0 n); [|lia].
  destruct (Z.leb_spec (off + n) (buf_size data)); [|lia]. reflexivity.
Qed.

Lemma load_string_not_Timeout (data : buffer) (off n : Z) :
  load_string data off n <> Timeout.
Proof.
  unfold load_string.
  destruct ((0 <=? off) && (0 <=? n) && (off + n <=? buf_size data)); discriminate.
Qed.

Lemma load_size_not_Timeout (data : buffer) (off : Z) codec :
  load_size data off codec <> Timeout.
Proof.
  unfold load_size.
  repeat (apply bind_not_Timeout; [apply load_not_Timeout | intros ? _]).
  discriminate.
Qed.

Lemma load_size_Done (data : buffer) (off : Z) codec (n : Z) :
  load_size data off codec = Done n ->
  exists s0 s1 s2 s3,
    slice data off 4 = [s0; s1; s2; s3] /\ n = codec s0 s1 s2 s3
    /\ 0 <= off /\ off + 4 <= buf_size data.
Proof.
  unfold load_size. intros H.
  bind_inv H. bind_inv H. bind_inv H. bind_inv H. injection H as <-.
  exists v, v0, v1, v2.
  pose proof (load_range _ _ _ E). pose proof (load_range _ _ _ E2).
  rewrite (slice_step _ _ _ _ E) by lia.
  rewrite (slice_step _ _ _ _ E0) by lia.
  replace (off + 1 + 1) with (off + 2) by lia.
  rewrite (slice_step _ _ _ _ E1) by lia.
  replace (off + 2 + 1) with (off + 3) by lia.
  rewrite (slice_step _ _ _ _ E2) by lia.
  rewrite slice_nil by lia. repeat split; try reflexivity; lia.
Qed.

Lemma load_size_in_bounds (data : buffer) (off : Z) codec :
  0 <= off -> off + 4 <= buf_size data -> exists n, load_size data off codec = Done n.
Proof.
  intros H0 H4. unfold load_size.
  destruct (load_in_bounds data off) as [s0 ->]; [lia|].
  destruct (load_in_bounds data (off + 1)) as [s1 ->]; [lia|].
  destruct (load_in_bounds data (off + 2)) as [s2 ->]; [lia|].
  destruct (load_in_bounds data (off + 3)) as [s3 ->]; [lia|].
  simpl. eauto.
Qed.

(** ** C strings *)

Lemma bytes_eqb_eq (a b : list byte) : bytes_eqb a b = true <-> a = b.
Proof.
  revert b. induction a as [| x a IH]; intros [| y b]; simpl;
    try (split; [discriminate | discriminate]); [tauto|].
  rewrite andb_true_iff, IH. split.
  - intros [Hxy ->]. apply Byte.byte_dec_bl in Hxy. congruence.
  - intros [= -> ->]. split; [apply Byte.byte_dec_lb|]; reflexivity.
Qed.

(** Comparing a NUL-terminated array with a literal of the same length and
    without NUL is comparing the bytes. *)
Lemma c_str_compare (id lit : list byte) :
  List.length id = List.length lit ->
  Forall (fun b => is_nul b = false) lit ->
  bytes_eqb (c_str (id ++ [NUL])) lit = bytes_eqb id lit.
Proof.
  revert lit. induction id as [| x id IH]; intros [| y lit] Hlen Hlit;
    simpl in Hlen; try discriminate; [reflexivity|].
  inversion Hlit as [| ? ? Hy Hlit']; subst.
  cbn [app c_str]. destruct (is_nul x) eqn:Hx.
  - unfold is_nul in Hx, Hy. apply Byte.byte_dec_bl in Hx. subst x.
    simpl. assert (Byte.eqb NUL y = false) as ->; [|reflexivity].
    destruct (Byte.eqb NUL y) eqn:E; [|reflexivity].
    apply Byte.byte_dec_bl in E. subst y. discriminate.
  - simpl. rewrite IH by (try assumption; congruence). reflexivity.
Qed.

Lemma strcmp_eq_frame_id (h0 h1 h2 h3 : byte) (lit : string) :
  List.length (list_byte_of_string lit) = 4%nat ->
  forallb (fun b => negb (is_nul b)) (list_byte_of_string lit) = true ->
  strcmp_eq [h0; h1; h2; h3; NUL] lit = bytes_eqb [h0; h1; h2; h3] (list_byte_of_string lit).
Proof.
  intros Hlen Hlit. unfold strcmp_eq.
  apply (c_str_compare [h0; h1; h2; h3]); [symmetry; exact Hlen|].
  apply Forall_forall. intros b Hb.
  rewrite forallb_forall in Hlit. specialize (Hlit b Hb).
  destruct (is_nul b); [discriminate | reflexivity].
Qed.

(** ** Frame size codec selection *)

(** C5, the claim as worded fails for a major version above 4: with major
    version 5 the size bytes 0 0 1 0 decode to 256 (plain), not to 128. *)
Lemma getFrameSize_major_5_is_plain :
  load v5_buffer (0 + off_version_major) = Done x05
  /\ 4 <= u8 x05
  /\ getFrameSize v5_buffer (data_plus 0) (data_plus 10) = Done 256
  /\ getFrameSize v5_buffer (data_plus 0) (data_plus 10)
     <> load_size v5_buffer (10 + off_frame_size) size7bitsToNormal.
Proof.
  repeat split; try reflexivity; vm_compute; discriminate.
Qed.

(** C5 (amended): the frame size is decoded with the 7-bit codec exactly
    when the major version of the tag equals 4, and with the plain 8-bit
    codec for every other major version, in particular for those up to 3. *)
Theorem getFrameSize_codec (data : buffer) (t f : Z) (major : byte) :
  load data (t + off_version_major) = Done major ->
  (u8 major = 4 ->
   getFrameSize data (data_plus t) (data_plus f)
   = load_size data (f + off_frame_size) size7bitsToNormal)
  /\ (u8 major <> 4 ->
      getFrameSize data (data_plus t) (data_plus f)
      = load_size data (f + off_frame_size) size8bitsToNormal)
  /\ (u8 major <= 3 ->
      getFrameSize data (data_plus t) (data_plus f)
      = load_size data (f + off_frame_size) size8bitsToNormal).
Proof.
  intros Hmajor. unfold getFrameSize. rewrite Hmajor. simpl.
  destruct (Z.eqb_spec (u8 major) 4) as [H4 | H4]; repeat split; intros; try reflexivity; lia.
Qed.

Lemma getFrameSize_codec_witness :
  getFrameSize v5_buffer (data_plus 0) (data_plus 10)
  = load_size v5_buffer (10 + off_frame_size) size8bitsToNormal.
Proof.
  destruct (getFrameSize_codec v5_buffer 0 10 x05) as (_ & Hplain & _); [reflexivity|].
  apply Hplain. vm_compute. discriminate.
Defined.

Lemma getFrameSize_not_Timeout (data : buffer) (tag frame : ptr) :
  getFrameSize data tag frame <> Timeout.
Proof.
  unfold getFrameSize. destruct tag, frame; try discriminate.
  apply bind_not_Timeout; [apply load_not_Timeout | intros major _].
  destruct (u8 major =? 4); apply load_size_not_Timeout.
Qed.

Lemma getFrameSize_range (data : buffer) (tag frame : ptr) (n : Z) :
  getFrameSize data tag frame = Done n -> 0 <= n < 2 ^ 32.
Proof.
  unfold getFrameSize. destruct tag, frame; try discriminate.
  intros H. bind_inv H.
  destruct (u8 v =? 4); apply load_size_Done in H;
    destruct H as (s0 & s1 & s2 & s3 & _ & -> & _).
  - pose proof (size7bitsToNormal_range s0 s1 s2 s3). lia.
  - apply size8bitsToNormal_range.
Qed.

Lemma getFrameSize_in_bounds (data : buffer) (t f : Z) :
  0 <= t -> t + 10 <= buf_size data -> 0 <= f -> f + 10 <= buf_size data ->
  exists n, getFrameSize data (data_plus t) (data_plus f) = Done n.
Proof.
  intros Ht0 Ht Hf0 Hf. unfold getFrameSize, off_version_major, off_frame_size.
  destruct (load_in_bounds data (t + 3)) as [major ->]; [lia|]. simpl.
  destruct (u8 major =? 4); apply load_size_in_bounds; lia.
Qed.

(** ** ID3v1 locator *)

(** C7: [getID3v1Tag] always returns; it returns [data + (size - 128)] if
    and only if the buffer has at least 128 bytes and the three bytes there
    are "TAG", and the null pointer otherwise, in particular for every
    buffer shorter than 128 bytes. *)
Theorem getID3v1Tag_spec (data : buffer) :
  buf_size data < 2 ^ 31 ->
  exists r,
    getID3v1Tag data = Done r
    /\ (forall off,
          r = data_plus off <->
          128 <= buf_size data /\ off = buf_size data - 128
          /\ slice data off 3 = bytes_of "TAG")
    /\ (buf_size data < 128 -> r = nullptr)
    /\ (slice data (buf_size data - 128) 3 <> bytes_of "TAG" -> r = nullptr).
Proof.
  intros Hint. pose proof (buf_size_nonneg data) as Hnn.
  unfold getID3v1Tag, sizeof_ID3v1Tag. rewrite to_size_t_small by lia.
  change (3 + 30 + 30 + 30 + 4 + 30 + 1) with 128.
  destruct (Z.ltb_spec (buf_size data) 128) as [Hsmall | Hbig].
  - exists nullptr. split; [reflexivity|]. split; [|auto].
    intros off. split; [discriminate | lia].
  - set (tag := buf_size data - 128).
    destruct (load_in_bounds data tag) as [t0 E0]; [lia|].
    destruct (load_in_bounds data (tag + 1)) as [t1 E1]; [lia|].
    destruct (load_in_bounds data (tag + 2)) as [t2 E2]; [lia|].
    rewrite E0, E1, E2. cbn [bind].
    assert (slice data tag 3 = [t0; t1; t2]) as Hslice.
    { rewrite (slice_step _ _ _ _ E0) by lia.
      rewrite (slice_step _ _ _ _ E1) by lia.
      replace (tag + 1 + 1) with (tag + 2) by lia.
      rewrite (slice_step _ _ _ _ E2) by lia.
      rewrite slice_nil by lia. reflexivity. }
    assert (strcmp_eq [t0; t1; t2; NUL] "TAG" = bytes_eqb [t0; t1; t2] (bytes_of "TAG"))
      as Hcmp.
    { unfold strcmp_eq. apply (c_str_compare [t0; t1; t2]); [reflexivity|].
      repeat constructor. }
    rewrite Hcmp.
    destruct (bytes_eqb [t0; t1; t2] (bytes_of "TAG")) eqn:Heq.
    + apply bytes_eqb_eq in Heq.
      exists (data_plus tag). split; [reflexivity|]. split; [|split].
      * intros off. split.
        -- intros [= <-]. rewrite Hslice. auto.
        -- intros (_ & -> & _). reflexivity.
      * lia.
      * rewrite Hslice. congruence.
    + exists nullptr. split; [reflexivity|]. split; [|auto].
      intros off. split; [discriminate|].
      intros (_ & -> & Htag). fold tag in Htag. rewrite Hslice in Htag.
      apply bytes_eqb_eq in Htag. congruence.
Qed.

Lemma getID3v1Tag_spec_witness :
  exists r,
    getID3v1Tag id3v1_buffer = Done r
    /\ (forall off,
          r = data_plus off <->
          128 <= buf_size id3v1_buffer /\ off = buf_size id3v1_buffer - 128
          /\ slice id3v1_buffer off 3 = bytes_of "TAG")
    /\ (buf_size id3v1_buffer < 128 -> r = nullptr)
    /\ (slice id3v1_buffer (buf_size id3v1_buffer - 128) 3 <> bytes_of "TAG" -> r = nullptr).
Proof.
  apply (getID3v1Tag_spec id3v1_buffer). vm_compute. reflexivity.
Defined.

(** ** ID3v2 locator *)

Lemma isID3v2TagHeader_not_Timeout (data : buffer) (p : Z) :
  isID3v2TagHeader data p <> Timeout.
Proof.
  unfold isID3v2TagHeader.
  apply bind_not_Timeout; [apply load_not_Timeout | intros h0 _].
  destruct (Byte.eqb h0 "I"); [|discriminate].
  apply bind_not_Timeout; [apply load_not_Timeout | intros h1 _].
  destruct (Byte.eqb h1 "D"); [|discriminate].
  apply bind_not_Timeout; [apply load_not_Timeout | intros h2 _]. discriminate.
Qed.

Lemma isID3v2TagHeader_range (data : buffer) (p : Z) (b : bool) :
  isID3v2TagHeader data p = Done b -> 0 <= p < buf_size data.
Proof.
  unfold isID3v2TagHeader. intros H. bind_inv H. eapply load_range; eassumption.
Qed.

(** With three bytes in the buffer the test compares them with "ID3". *)
Lemma isID3v2TagHeader_slice (data : buffer) (p : Z) :
  0 <= p -> p + 3 <= buf_size data ->
  isID3v2TagHeader data p
  = Done (bytes_eqb (slice data p 3) (list_byte_of_string "ID3")).
Proof.
  intros Hp0 Hp. unfold isID3v2TagHeader.
  destruct (load_in_bounds data p) as [h0 E0]; [lia|].
  destruct (load_in_bounds data (p + 1)) as [h1 E1]; [lia|].
  destruct (load_in_bounds data (p + 2)) as [h2 E2]; [lia|].
  rewrite (slice_step _ _ _ _ E0) by lia.
  rewrite (slice_step _ _ _ _ E1) by lia.
  replace (p + 1 + 1) with (p + 2) by lia.
  rewrite (slice_step _ _ _ _ E2) by lia.
  rewrite slice_nil by lia.
  change (list_byte_of_string "ID3") with ["I"%byte; "D"%byte; "3"%byte].
  rewrite E0. cbn [bind bytes_eqb].
  destruct (Byte.eqb h0 "I"); [|reflexivity].
  rewrite E1. cbn [bind andb].
  destruct (Byte.eqb h1 "D"); [|reflexivity].
  rewrite E2. cbn [bind andb]. rewrite andb_true_r. reflexivity.
Qed.

(** The loop bound of [getID3v2Tags]. *)
Lemma getID3v2Tags_bound_short (data : buffer) :
  buf_size data < 10 ->
  to_size_t (to_size_t (buf_size data) - sizeof_ID3v2TagHeader)
  = 2 ^ 64 - (10 - buf_size data).
Proof.
  intros H. pose proof (buf_size_nonneg data).
  rewrite (to_size_t_small (buf_size data)) by lia.
  unfold to_size_t, sizeof_ID3v2TagHeader.
  replace (buf_size data - (3 + 1 + 1 + 1 + 4))
    with (2 ^ 64 - (10 - buf_size data) + (-1) * 2 ^ 64) by lia.
  rewrite Z.mod_add by lia. apply Z.mod_small. lia.
Qed.

Lemma getID3v2Tags_bound (data : buffer) :
  10 <= buf_size data < 2 ^ 31 ->
  to_size_t (to_size_t (buf_size data) - sizeof_ID3v2TagHeader) = buf_size data - 10.
Proof.
  intros H. rewrite (to_size_t_small (buf_size data)) by lia.
  unfold sizeof_ID3v2TagHeader. apply to_size_t_small. lia.
Qed.

(** The counter of the embedding never runs out: every iteration reads
    [data + i]. *)
Lemma getID3v2Tags_loop_not_Timeout (data : buffer) (fuel : nat) (i : Z) (tags : list ptr) :
  (0 < fuel)%nat -> buf_size data - i < Z.of_nat fuel ->
  getID3v2Tags_loop fuel data i tags <> Timeout.
Proof.
  revert i tags. induction fuel as [| fuel IH]; intros i tags Hpos Hfuel.
  - lia.
  - cbn [getID3v2Tags_loop].
    destruct (_ <? _); [|discriminate].
    apply bind_not_Timeout; [apply isID3v2TagHeader_not_Timeout|].
    intros b Hb. apply isID3v2TagHeader_range in Hb. apply IH; lia.
Qed.

Lemma getID3v2Tags_terminates (data : buffer) : getID3v2Tags data <> Timeout.
Proof.
  unfold getID3v2Tags. apply getID3v2Tags_loop_not_Timeout; unfold buf_size; lia.
Qed.

(** A buffer of fewer than 10 bytes: the bound wraps around, so the guard
    holds at every offset of the buffer and the scan runs off its end. *)
Lemma getID3v2Tags_loop_short (data : buffer) (fuel : nat) (i : Z) (tags : list ptr) :
  buf_size data < 10 -> 0 <= i <= buf_size data ->
  forall r, getID3v2Tags_loop fuel data i tags <> Done r.
Proof.
  intros Hshort. revert i tags. induction fuel as [| fuel IH]; intros i tags Hi r.
  - discriminate.
  - cbn [getID3v2Tags_loop]. rewrite getID3v2Tags_bound_short by assumption.
    rewrite to_size_t_small by lia.
    destruct (Z.ltb_spec i (2 ^ 64 - (10 - buf_size data))) as [Hlt | Hge]; [|lia].
    intros H. bind_inv H. apply isID3v2TagHeader_range in E.
    revert H. apply IH. lia.
Qed.

Lemma getID3v2Tags_short (data : buffer) :
  buf_size data < 10 -> getID3v2Tags data = OutOfBounds.
Proof.
  intros Hshort. pose proof (getID3v2Tags_terminates data) as Hterm.
  pose proof (getID3v2Tags_loop_short data (S (List.length data)) 0 [] Hshort) as Hno.
  pose proof (buf_size_nonneg data).
  unfold getID3v2Tags in *. destruct (getID3v2Tags_loop _ data 0 []) as [r | |].
  - exfalso. apply (Hno ltac:(lia) r). reflexivity.
  - reflexivity.
  - congruence.
Qed.

(** The offsets [from, from + 1, ..., from + count - 1]. *)
Lemma seq_offsets_step (from count : nat) :
  map Z.of_nat (seq from (S count)) = Z.of_nat from :: map Z.of_nat (seq (S from) count).
Proof. reflexivity. Qed.

Lemma getID3v2Tags_loop_spec (data : buffer) (count fuel : nat) (from : nat) (tags : list ptr) :
  10 <= buf_size data < 2 ^ 31 ->
  Z.of_nat from + Z.of_nat count = buf_size data - 10 ->
  (count < fuel)%nat ->
  getID3v2Tags_loop fuel data (Z.of_nat from) tags
  = Done (tags ++ map data_plus
                    (filter (fun i => bytes_eqb (slice data i 3) (list_byte_of_string "ID3"))
                            (map Z.of_nat (seq from count)))).
Proof.
  intros Hsize. revert fuel from tags.
  induction count as [| count IH]; intros fuel from tags Hsum Hfuel;
    (destruct fuel as [| fuel]; [lia|]); cbn [getID3v2Tags_loop];
    rewrite getID3v2Tags_bound by assumption; rewrite to_size_t_small by lia.
  - destruct (Z.ltb_spec (Z.of_nat from) (buf_size data - 10)); [lia|].
    simpl. rewrite app_nil_r. reflexivity.
  - destruct (Z.ltb_spec (Z.of_nat from) (buf_size data - 10)); [|lia].
    rewrite isID3v2TagHeader_slice by lia. cbn [bind].
    replace (Z.of_nat from + 1) with (Z.of_nat (S from)) by lia.
    rewrite IH by lia. rewrite seq_offsets_step. cbn [filter].
    destruct (bytes_eqb (slice data (Z.of_nat from) 3) (list_byte_of_string "ID3")).
    + rewrite <- app_assoc. reflexivity.
    + reflexivity.
Qed.

(** With at least 10 bytes [getID3v2Tags] returns the offsets of "ID3"
    below [size - 10], lowest first. *)
Lemma getID3v2Tags_spec (data : buffer) :
  10 <= buf_size data < 2 ^ 31 ->
  getID3v2Tags data = Done (map data_plus (id3_offsets data)).
Proof.
  intros Hsize. unfold getID3v2Tags, id3_offsets.
  change 0 with (Z.of_nat 0).
  rewrite (getID3v2Tags_loop_spec data (List.length data - 10)); unfold buf_size in *;
    try lia.
  reflexivity.
Qed.

Lemma id3_offsets_spec (data : buffer) (i : Z) :
  In i (id3_offsets data)
  <-> 0 <= i < buf_size data - 10 /\ slice data i 3 = bytes_of "ID3".
Proof.
  unfold id3_offsets, buf_size, bytes_of.
  rewrite filter_In, in_map_iff, bytes_eqb_eq. split.
  - intros [(n & <- & Hn) Hid]. apply in_seq in Hn. split; [lia | assumption].
  - intros [Hi Hid]. split; [|assumption].
    exists (Z.to_nat i). split; [lia|]. apply in_seq. lia.
Qed.

Lemma ascending_filter_seq (keep : Z -> bool) (from count : nat) :
  ascending (map data_plus (filter keep (map Z.of_nat (seq from count)))).
Proof.
  revert from. induction count as [| count IH]; intros from.
  - constructor.
  - rewrite seq_offsets_step. cbn [filter]. destruct (keep (Z.of_nat from)); [|apply IH].
    cbn [map]. constructor; [apply IH|].
    intros off' Hin. apply in_map_iff in Hin. destruct Hin as (i & [= ->] & Hin).
    apply filter_In in Hin. destruct Hin as [Hin _].
    apply in_map_iff in Hin. destruct Hin as (n & <- & Hn).
    apply in_seq in Hn. lia.
Qed.

Lemma id3_offsets_ascending (data : buffer) : ascending (map data_plus (id3_offsets data)).
Proof. apply ascending_filter_seq. Qed.

(** Whenever the scan returns, the vector is in ascending order. *)
Lemma getID3v2Tags_ascending (data : buffer) (tags : list ptr) :
  buf_size data < 2 ^ 31 -> getID3v2Tags data = Done tags -> ascending tags.
Proof.
  intros Hint Htags.
  destruct (Z.lt_ge_cases (buf_size data) 10) as [Hshort | Hlong].
  - rewrite getID3v2Tags_short in Htags by assumption. discriminate.
  - rewrite getID3v2Tags_spec in Htags by lia. injection Htags as <-.
    apply id3_offsets_ascending.
Qed.

(** C6, on a buffer of 5 bytes: the loop bound [size - sizeof(ID3v2TagHeader)]
    wraps around to [2^64 - 5], the scan is not stopped and reads beyond the
    buffer, where the claim has the empty sequence. *)
Theorem getID3v2Tags_short_buffer :
  buf_size short_buffer = 5
  /\ to_size_t (to_size_t (buf_size short_buffer) - sizeof_ID3v2TagHeader) = 2 ^ 64 - 5
  /\ getID3v2Tags short_buffer = OutOfBounds.
Proof. repeat split; reflexivity. Qed.

(** ** Frame walker *)

Lemma getTagSize_Done (data : buffer) (t S : Z) :
  getTagSize data (data_plus t) = Done S ->
  0 <= S < 2 ^ 29 /\ 0 <= t + off_tag_size /\ t + 10 <= buf_size data.
Proof.
  unfold getTagSize, off_tag_size. intros H. apply load_size_Done in H.
  destruct H as (s0 & s1 & s2 & s3 & _ & -> & H0 & H4).
  pose proof (size7bitsToNormal_range s0 s1 s2 s3). lia.
Qed.

Section WalkerLoop.

Variable data : buffer.
Variable tagHeader : ptr.
Variables start_pos tag_size : Z.

Hypothesis size_is_int : buf_size data < 2 ^ 31.
Hypothesis tag_end_range : 10 <= start_pos + tag_size < 2 ^ 32.

(** The guard [pos < start_pos + tag_size - sizeof(ID3v2TagFrameHeader)]. *)
Lemma walker_guard (pos : Z) :
  0 <= pos < 2 ^ 32 ->
  (to_size_t pos <?
     to_size_t (to_size_t (to_u32 (start_pos + tag_size)) - sizeof_ID3v2TagFrameHeader))
  = (pos + 10 <? start_pos + tag_size).
Proof.
  intros Hpos. unfold sizeof_ID3v2TagFrameHeader.
  rewrite (to_u32_small (start_pos + tag_size)) by lia.
  rewrite !to_size_t_small by (try rewrite to_size_t_small; lia).
  destruct (Z.ltb_spec pos (start_pos + tag_size - (4 + 4 + 2)));
    destruct (Z.ltb_spec (pos + 10) (start_pos + tag_size)); reflexivity || lia.
Qed.

(** The test [pos + sizeof(ID3v2TagFrameHeader) > size]. *)
Lemma walker_bounds_check (pos : Z) :
  0 <= pos < 2 ^ 32 ->
  (to_size_t (buf_size data) <? to_size_t (to_size_t pos + sizeof_ID3v2TagFrameHeader))
  = (buf_size data <? pos + 10).
Proof.
  intros Hpos. pose proof (buf_size_nonneg data). unfold sizeof_ID3v2TagFrameHeader.
  rewrite !to_size_t_small by (try rewrite to_size_t_small; lia).
  reflexivity.
Qed.

Lemma getID3v2TagFrames_loop_inside (fuel : nat) (pos : Z) (frames result : list ptr) :
  0 <= pos < 2 ^ 32 ->
  Forall (header_inside data (start_pos + tag_size)) frames ->
  getID3v2TagFrames_loop fuel data tagHeader start_pos tag_size pos frames = Done result ->
  Forall (header_inside data (start_pos + tag_size)) result.
Proof.
  revert pos frames. induction fuel as [| fuel IH]; intros pos frames Hpos Hframes Hrun.
  - discriminate.
  - cbn [getID3v2TagFrames_loop] in Hrun.
    rewrite walker_guard, walker_bounds_check in Hrun by assumption.
    destruct (Z.ltb_spec (pos + 10) (start_pos + tag_size)) as [Hguard |];
      [|injection Hrun as <-; assumption].
    destruct (Z.ltb_spec (buf_size data) (pos + 10)) as [| Hroom];
      [injection Hrun as <-; assumption|].
    bind_inv Hrun.
    destruct (u8 v =? 0); [injection Hrun as <-; assumption|].
    bind_inv Hrun. apply IH in Hrun; [assumption | apply to_u32_range |].
    apply Forall_app. split; [assumption|].
    constructor; [|constructor]. exists pos. repeat split; lia.
Qed.

End WalkerLoop.

(** C2, the claim as worded fails: the tag declares 12 bytes of body, the
    walker yields the frame at offset 10 whose body has 20 bytes, so the
    frame ends at offset 40, beyond [0 + 10 + 12]. *)
Lemma frame_body_beyond_tag :
  getID3v2Tags overrun_buffer = Done [data_plus 0]
  /\ getTagSize overrun_buffer (data_plus 0) = Done 12
  /\ getID3v2TagFrames 2 overrun_buffer (data_plus 0) = Done [data_plus 10]
  /\ getFrameSize overrun_buffer (data_plus 0) (data_plus 10) = Done 20
  /\ ~ (10 + 10 + 20 <= 0 + 10 + 12).
Proof. repeat split; try reflexivity. lia. Qed.

(** C2 (amended): every frame yielded for the tag at [tagStart] with
    declared body size [S] has its 10-byte header inside the buffer and
    ending before [tagStart + 10 + S]; the frame body is not checked. *)
Theorem getID3v2TagFrames_headers_inside
    (fuel : nat) (data : buffer) (tagStart S : Z) (frames : list ptr) :
  buf_size data < 2 ^ 31 ->
  0 <= tagStart ->
  getTagSize data (data_plus tagStart) = Done S ->
  getID3v2TagFrames fuel data (data_plus tagStart) = Done frames ->
  forall frame, In frame frames ->
    exists f, frame = data_plus f
              /\ 0 <= f /\ f + 10 <= buf_size data /\ f + 10 < tagStart + 10 + S.
Proof.
  intros Hint Htag HS Hrun.
  pose proof (getTagSize_Done _ _ _ HS) as (HSrange & _ & Hhdr).
  unfold getID3v2TagFrames in Hrun. rewrite HS in Hrun. cbn [bind] in Hrun.
  assert (to_u32 (to_size_t (to_size_t tagStart + sizeof_ID3v2TagHeader)) = tagStart + 10)
    as Hstart.
  { unfold sizeof_ID3v2TagHeader.
    rewrite (to_size_t_small tagStart) by lia.
    rewrite to_size_t_small by lia. apply to_u32_small. lia. }
  rewrite Hstart in Hrun.
  apply getID3v2TagFrames_loop_inside in Hrun; try lia; [|constructor].
  intros frame Hin. rewrite Forall_forall in Hrun. apply (Hrun frame Hin).
Qed.

Lemma getID3v2TagFrames_headers_inside_witness :
  exists f, data_plus 10 = data_plus f
            /\ 0 <= f /\ f + 10 <= buf_size overrun_buffer /\ f + 10 < 0 + 10 + 12.
Proof.
  apply (getID3v2TagFrames_headers_inside 2 overrun_buffer 0 12 [data_plus 10]).
  - vm_compute. reflexivity.
  - lia.
  - reflexivity.
  - reflexivity.
  - simpl. left. reflexivity.
Defined.

(** More iterations do not change a result. *)
Lemma getID3v2TagFrames_loop_more_fuel (data : buffer) (tag : ptr) (sp ts : Z)
    (fuel fuel' : nat) (pos : Z) (frames result : list ptr) :
  (fuel <= fuel')%nat ->
  getID3v2TagFrames_loop fuel data tag sp ts pos frames = Done result ->
  getID3v2TagFrames_loop fuel' data tag sp ts pos frames = Done result.
Proof.
  revert fuel' pos frames. induction fuel as [| fuel IH]; intros fuel' pos frames Hle Hrun.
  - discriminate.
  - destruct fuel' as [| fuel']; [lia|]. cbn [getID3v2TagFrames_loop] in *.
    destruct (_ <? _); [|assumption]. destruct (_ <? _); [assumption|].
    destruct (load data pos) as [h0 | |]; try discriminate. cbn [bind] in *.
    destruct (u8 h0 =? 0); [assumption|].
    destruct (getFrameSize data tag (data_plus pos)) as [n | |]; try discriminate.
    cbn [bind] in *. apply IH; [lia | assumption].
Qed.

Lemma getID3v2TagFrames_more_fuel (data : buffer) (tag : ptr) (fuel fuel' : nat)
    (result : list ptr) :
  (fuel <= fuel')%nat ->
  getID3v2TagFrames fuel data tag = Done result ->
  getID3v2TagFrames fuel' data tag = Done result.
Proof.
  intros Hle. unfold getID3v2TagFrames. destruct tag as [| t]; [auto|].
  destruct (getTagSize data (data_plus t)) as [S | |]; try discriminate. cbn [bind].
  apply getID3v2TagFrames_loop_more_fuel. assumption.
Qed.

(** The walk need not end: on [looping_buffer] the position stays at 10 and
    the same frame is appended at every iteration, whatever the bound. *)
Lemma getID3v2TagFrames_loop_stays (fuel : nat) (frames : list ptr) :
  getID3v2TagFrames_loop fuel looping_buffer (data_plus 0) 10 32 10 frames = Timeout.
Proof.
  revert frames. induction fuel as [| fuel IH]; intros frames; [reflexivity|].
  cbn [getID3v2TagFrames_loop].
  change (to_size_t 10 <?
          to_size_t (to_size_t (to_u32 (10 + 32)) - sizeof_ID3v2TagFrameHeader)) with true.
  change (to_size_t (buf_size looping_buffer) <?
          to_size_t (to_size_t 10 + sizeof_ID3v2TagFrameHeader)) with false.
  change (load looping_buffer 10) with (Done "T"%byte). cbn [bind].
  change (u8 "T" =? 0) with false.
  change (getFrameSize looping_buffer (data_plus 0) (data_plus 10))
    with (Done (2 ^ 32 - 10)).
  cbn [bind].
  change (to_u32 (to_size_t (to_size_t 10
            + to_size_t (sizeof_ID3v2TagFrameHeader + to_size_t (2 ^ 32 - 10))))) with 10.
  apply IH.
Qed.

Lemma getID3v2TagFrames_may_not_terminate (fuel : nat) :
  getID3v2TagFrames fuel looping_buffer (data_plus 0) = Timeout.
Proof. apply getID3v2TagFrames_loop_stays. Qed.

(** ** Reads beyond the buffer *)

(** C1, on a buffer that ends inside the declared body of its frame: the
    walker yields the frame, and each decoder then reads beyond the last
    byte of the buffer, so that [getMetadata] does not return a record. *)
Theorem decoders_leave_truncated_buffer :
  buf_size truncated_buffer = 22
  /\ getID3v2TagFrames 2 truncated_buffer (data_plus 0) = Done [data_plus 10]
  /\ getFrameSize truncated_buffer (data_plus 0) (data_plus 10) = Done 64
  /\ getTextFrameData truncated_buffer (data_plus 0) (data_plus 10) = OutOfBounds
  /\ getFrameSize truncated_apic_buffer (data_plus 0) (data_plus 10) = Done 64
  /\ getPictureFrameData truncated_apic_buffer (data_plus 0) (data_plus 10) = OutOfBounds
  /\ (forall fuel m, getMetadata fuel truncated_buffer <> Done m)
  /\ (forall fuel m, getMetadata fuel truncated_apic_buffer <> Done m).
Proof.
  repeat split; try reflexivity;
    intros [| [| fuel]] m; vm_compute; discriminate.
Qed.

(** ** The record of a buffer without tags *)

(** C9, on 16 zero bytes: [getMetadata] returns the record as declared,
    whose picture pointer and image size were never initialized; the claim
    has them absent and zero. *)
Theorem getMetadata_untagged_indeterminate :
  forall fuel,
    exists m,
      getMetadata fuel untagged_buffer = Done m
      /\ image_data m = Indeterminate /\ image_size m = Indeterminate
      /\ image_data m <> Known nullptr /\ image_size m <> Known 0.
Proof.
  intros fuel. exists new_metadata. repeat split; try reflexivity; discriminate.
Qed.

(** ** Text decoder *)

Lemma u8_zero_is_nul (c : byte) : (u8 c =? 0) = is_nul c.
Proof.
  unfold is_nul. destruct (Z.eqb_spec (u8 c) 0) as [H0 | H0].
  - symmetry. apply Byte.byte_dec_lb. apply u8_inj. exact H0.
  - destruct (Byte.eqb c NUL) eqn:E; [|reflexivity].
    apply Byte.byte_dec_bl in E. subst c. exfalso. apply H0. reflexivity.
Qed.

Lemma even_bytes_step (c : byte) (rest : list byte) :
  even_bytes (c :: rest) = c :: even_bytes (tl rest).
Proof. destruct rest; reflexivity. Qed.

Lemma tl_slice (data : buffer) (off n : Z) :
  0 <= off -> tl (slice data off n) = slice data (off + 1) (n - 1).
Proof.
  intros Hoff. destruct (Z.le_gt_cases n 0) as [Hn | Hn].
  - rewrite !slice_nil by lia. reflexivity.
  - destruct (Z.lt_ge_cases off (buf_size data)) as [Hin | Hout].
    + destruct (load_in_bounds data off) as [b Hb]; [lia|].
      rewrite (slice_step _ _ _ _ Hb) by lia. reflexivity.
    + unfold slice, buf_size in *.
      rewrite !skipn_all2 by lia. rewrite !firstn_nil. reflexivity.
Qed.

Section TextLoop.

Variable data : buffer.
Variables frame_data frame_size : Z.

Hypothesis frame_data_nonneg : 0 <= frame_data.
Hypothesis size_is_int : buf_size data < 2 ^ 31.

(** The counter of the embedding is enough: an iteration that continues
    has read [frame_data[i]] inside the buffer. *)
Lemma utf16_text_loop_not_Timeout (fuel : nat) (i : Z) (result : list byte) :
  0 <= i -> (0 < fuel)%nat -> buf_size data - (frame_data + i) < Z.of_nat fuel ->
  utf16_text_loop fuel data frame_data frame_size i result <> Timeout.
Proof.
  revert i result. induction fuel as [| fuel IH]; intros i result Hi Hpos Hfuel; [lia|].
  cbn [utf16_text_loop]. destruct (i <? frame_size); [|discriminate].
  apply bind_not_Timeout; [apply load_not_Timeout|].
  intros c Hc. apply load_range in Hc.
  rewrite to_u32_small by lia. apply IH; lia.
Qed.

Hypothesis payload_inside : frame_data + frame_size <= buf_size data.

(** Inside the buffer the loop appends the bytes at the even offsets of the
    rest of the payload that pass the test. *)
Lemma utf16_text_loop_spec (fuel : nat) (i : Z) (result : list byte) :
  0 <= i -> (0 < fuel)%nat -> frame_size - i < Z.of_nat fuel ->
  utf16_text_loop fuel data frame_data frame_size i result
  = Done (result
          ++ filter is_ascii (even_bytes (slice data (frame_data + i) (frame_size - i)))).
Proof.
  revert i result. induction fuel as [| fuel IH]; intros i result Hi Hpos Hfuel; [lia|].
  cbn [utf16_text_loop]. destruct (Z.ltb_spec i frame_size) as [Hlt | Hge].
  - destruct (load_in_bounds data (frame_data + i)) as [c Hc]; [lia|].
    rewrite Hc. cbn [bind]. rewrite to_u32_small by lia.
    rewrite IH by lia.
    rewrite (slice_step _ _ _ _ Hc) by lia.
    rewrite even_bytes_step, tl_slice by lia. cbn [filter].
    replace (frame_data + i + 1 + 1) with (frame_data + (i + 2)) by lia.
    replace (frame_size - i - 1 - 1) with (frame_size - (i + 2)) by lia.
    fold (is_ascii c). destruct (is_ascii c).
    + rewrite <- app_assoc. reflexivity.
    + reflexivity.
  - rewrite slice_nil by lia. simpl. rewrite app_nil_r. reflexivity.
Qed.

End TextLoop.

(** [getTextFrameData] never exhausts the counter of the embedding. *)
Lemma getTextFrameData_not_Timeout (data : buffer) (tag : ptr) (f : Z) :
  buf_size data < 2 ^ 31 -> 0 <= f ->
  getTextFrameData data tag (data_plus f) <> Timeout.
Proof.
  intros Hint Hf. unfold getTextFrameData, getFrameData, sizeof_ID3v2TagFrameHeader.
  apply bind_not_Timeout; [apply getFrameSize_not_Timeout | intros frame_size _].
  apply bind_not_Timeout; [apply load_not_Timeout | intros encoding _].
  destruct (u8 encoding =? 0); [apply load_string_not_Timeout|].
  destruct ((u8 encoding =? 1) || (u8 encoding =? 2)).
  - pose proof (buf_size_nonneg data).
    apply utf16_text_loop_not_Timeout; unfold buf_size in *; lia.
  - destruct (u8 encoding =? 3); [apply load_string_not_Timeout | discriminate].
Qed.

Section TextFrame.

Variable data : buffer.
Variable tag : ptr.
Variables f fsize : Z.
Variable encoding : byte.

Hypothesis size_is_int : buf_size data < 2 ^ 31.
Hypothesis frame_nonneg : 0 <= f.
Hypothesis frame_size : getFrameSize data tag (data_plus f) = Done fsize.
Hypothesis body_nonempty : 1 <= fsize.
Hypothesis body_inside : f + 10 + fsize <= buf_size data.
Hypothesis frame_encoding : load data (f + 10) = Done encoding.

(** The decoder on a frame inside the buffer, in terms of the payload (the
    body after its encoding byte). *)
Lemma getTextFrameData_inside :
  getTextFrameData data tag (data_plus f)
  = Done (if u8 encoding =? 0 then slice data (f + 11) (fsize - 1)
          else if (u8 encoding =? 1) || (u8 encoding =? 2)
               then filter is_ascii (even_bytes (slice data (f + 11) (fsize - 1)))
               else if u8 encoding =? 3 then slice data (f + 11) (fsize - 1) else []).
Proof.
  unfold getTextFrameData, getFrameData, sizeof_ID3v2TagFrameHeader.
  change (f + (4 + 4 + 2)) with (f + 10).
  rewrite frame_size. cbn [bind]. rewrite frame_encoding. cbn [bind].
  pose proof (getFrameSize_range _ _ _ _ frame_size) as Hrange.
  rewrite (to_u32_small (fsize - 1)) by lia.
  replace (f + 10 + 1) with (f + 11) by lia.
  destruct (u8 encoding =? 0); [apply load_string_slice; lia|].
  destruct ((u8 encoding =? 1) || (u8 encoding =? 2)).
  - rewrite utf16_text_loop_spec; unfold buf_size in *; try lia.
    rewrite Z.add_0_r, Z.sub_0_r. reflexivity.
  - destruct (u8 encoding =? 3); [apply load_string_slice; lia | reflexivity].
Qed.

End TextFrame.

(** C4, the claim as worded fails.  With encoding 1 and the little-endian
    code units 0xFEFF, 0x0441, 0x0042 the code returns "AB": the unit 0x0441
    is outside 1..127 and still yields the byte 0x41.  With encoding 2 and
    the big-endian code units 0x0041, 0x0042 the code returns the empty
    string, although both units are in 1..127. *)
Lemma utf16_code_units_not_filtered :
  getTextFrameData utf16le_buffer (data_plus 0) (data_plus 10) = Done (bytes_of "AB")
  /\ ascii_code_units false (slice utf16le_buffer 21 6) = [66]
  /\ map u8 (bytes_of "AB") <> ascii_code_units false (slice utf16le_buffer 21 6)
  /\ getTextFrameData utf16be_buffer (data_plus 0) (data_plus 10) = Done []
  /\ ascii_code_units true (slice utf16be_buffer 21 4) = [65; 66]
  /\ map u8 [] <> ascii_code_units true (slice utf16be_buffer 21 4).
Proof.
  repeat split; try reflexivity; vm_compute; discriminate.
Qed.

(** C4 (amended): for a text frame whose body lies in the buffer and whose
    encoding byte is 1 or 2, [getTextFrameData] returns exactly the bytes at
    the even offsets 0, 2, 4, ... of the payload (the first byte of every
    two-byte unit) whose value lies in 1..127, in payload order; the bytes
    at the odd offsets are not looked at. *)
Theorem getTextFrameData_utf16
    (data : buffer) (tag : ptr) (f fsize : Z) (encoding : byte) :
  buf_size data < 2 ^ 31 ->
  0 <= f ->
  getFrameSize data tag (data_plus f) = Done fsize ->
  1 <= fsize ->
  f + 10 + fsize <= buf_size data ->
  load data (f + 10) = Done encoding ->
  u8 encoding = 1 \/ u8 encoding = 2 ->
  getTextFrameData data tag (data_plus f)
  = Done (filter (fun c => (1 <=? u8 c) && (u8 c <=? 127))
                 (even_bytes (slice data (f + 11) (fsize - 1)))).
Proof.
  intros Hint Hf Hsize Hne Hin Henc Hutf16.
  rewrite (getTextFrameData_inside data tag f fsize encoding) by assumption.
  assert ((u8 encoding =? 0) = false) as -> by (apply Z.eqb_neq; lia).
  assert (((u8 encoding =? 1) || (u8 encoding =? 2)) = true) as ->.
  { apply orb_true_iff. rewrite !Z.eqb_eq. assumption. }
  f_equal. apply filter_ext. intros c. unfold is_ascii.
  pose proof (u8_range c).
  destruct (Z.eqb_spec (u8 c) 0), (Z.ltb_spec (u8 c) 128),
    (Z.leb_spec 1 (u8 c)), (Z.leb_spec (u8 c) 127); simpl; reflexivity || lia.
Qed.

Lemma getTextFrameData_utf16_witness :
  getTextFrameData utf16le_buffer (data_plus 0) (data_plus 10)
  = Done (filter (fun c => (1 <=? u8 c) && (u8 c <=? 127))
                 (even_bytes (slice utf16le_buffer (10 + 11) (7 - 1)))).
Proof.
  apply (getTextFrameData_utf16 utf16le_buffer (data_plus 0) 10 7 x01).
  - vm_compute. reflexivity.
  - lia.
  - reflexivity.
  - lia.
  - vm_compute. discriminate.
  - reflexivity.
  - left. reflexivity.
Defined.

(** ** Picture decoder *)

Lemma c_str_no_nul (s : list byte) :
  Forall (fun c => is_nul c = false) s -> c_str s = s.
Proof.
  induction 1 as [| c s Hc _ IH]; [reflexivity|].
  cbn [c_str]. rewrite Hc, IH. reflexivity.
Qed.

Section PictureLoops.

Variable data : buffer.
Variables frame_data frame_size : Z.

Hypothesis frame_data_nonneg : 0 <= frame_data.
Hypothesis size_is_int : buf_size data < 2 ^ 31.

(** The three loops never exhaust the counter of the embedding: an
    iteration that continues has read [frame_data[data_pos]] inside the
    buffer. *)
Lemma mime_type_loop_not_Timeout (fuel : nat) (data_pos : Z) (mime : list byte) :
  0 <= data_pos -> (0 < fuel)%nat ->
  buf_size data - (frame_data + data_pos) < Z.of_nat fuel ->
  mime_type_loop fuel data frame_data frame_size data_pos mime <> Timeout.
Proof.
  revert data_pos mime.
  induction fuel as [| fuel IH]; intros data_pos mime Hpos Hfuel0 Hfuel; [lia|].
  cbn [mime_type_loop]. destruct (data_pos <? frame_size); [|discriminate].
  apply bind_not_Timeout; [apply load_not_Timeout|].
  intros c Hc. apply load_range in Hc.
  destruct (negb (u8 c =? 0)); [|discriminate].
  rewrite to_u32_small by lia. apply IH; lia.
Qed.

Lemma skip_info_loop_not_Timeout (fuel : nat) (data_pos : Z) :
  0 <= data_pos -> (0 < fuel)%nat ->
  buf_size data - (frame_data + data_pos) < Z.of_nat fuel ->
  skip_info_loop fuel data frame_data frame_size data_pos <> Timeout.
Proof.
  revert data_pos.
  induction fuel as [| fuel IH]; intros data_pos Hpos Hfuel0 Hfuel; [lia|].
  cbn [skip_info_loop]. destruct (data_pos <? frame_size); [|discriminate].
  apply bind_not_Timeout; [apply load_not_Timeout|].
  intros c Hc. apply load_range in Hc.
  destruct (negb (u8 c =? 0)); [|discriminate].
  rewrite to_u32_small by lia. apply IH; lia.
Qed.

Lemma skip_info16_loop_not_Timeout (fuel : nat) (data_pos : Z) :
  0 <= data_pos -> (0 < fuel)%nat ->
  buf_size data - (frame_data + data_pos) < Z.of_nat fuel ->
  skip_info16_loop fuel data frame_data frame_size data_pos <> Timeout.
Proof.
  revert data_pos.
  induction fuel as [| fuel IH]; intros data_pos Hpos Hfuel0 Hfuel; [lia|].
  cbn [skip_info16_loop]. destruct (data_pos <? to_u32 (frame_size - 1)); [|discriminate].
  apply bind_not_Timeout; [apply load_not_Timeout|].
  intros c0 Hc0. apply load_range in Hc0.
  apply bind_not_Timeout.
  - destruct (u8 c0 =? 0); [|discriminate].
    apply bind_not_Timeout; [apply load_not_Timeout | discriminate].
  - intros terminator _. destruct (negb terminator); [|discriminate].
    rewrite to_u32_small by lia. apply IH; lia.
Qed.

Hypothesis frame_size_range : 1 <= frame_size < 2 ^ 32.
Hypothesis body_inside : frame_data + frame_size <= buf_size data.

(** The mime type loop inside the buffer: it appends the bytes up to the
    first NUL or to the end of the frame, and leaves [data_pos] there. *)
Lemma mime_type_loop_spec (fuel : nat) (data_pos : Z) (mime : list byte) :
  0 <= data_pos -> (0 < fuel)%nat -> frame_size - data_pos < Z.of_nat fuel ->
  let scanned := c_str (slice data (frame_data + data_pos) (frame_size - data_pos)) in
  mime_type_loop fuel data frame_data frame_size data_pos mime
  = Done (data_pos + Z.of_nat (List.length scanned), mime ++ scanned).
Proof.
  revert data_pos mime.
  induction fuel as [| fuel IH]; intros data_pos mime Hpos Hfuel0 Hfuel; [lia|].
  cbn zeta. cbn [mime_type_loop].
  destruct (Z.ltb_spec data_pos frame_size) as [Hlt | Hge].
  - destruct (load_in_bounds data (frame_data + data_pos)) as [c Hc]; [lia|].
    rewrite Hc. cbn [bind].
    rewrite (slice_step _ _ _ _ Hc) by lia. cbn [c_str].
    rewrite u8_zero_is_nul. destruct (is_nul c); cbn [negb].
    + rewrite app_nil_r, Z.add_0_r. reflexivity.
    + rewrite to_u32_small by lia. rewrite IH by lia. cbn zeta.
      replace (frame_data + (data_pos + 1)) with (frame_data + data_pos + 1) by lia.
      replace (frame_size - (data_pos + 1)) with (frame_size - data_pos - 1) by lia.
      cbn [List.length]. rewrite <- app_assoc. f_equal. f_equal. lia.
  - rewrite slice_nil by lia. cbn [c_str List.length].
    rewrite app_nil_r, Z.add_0_r. reflexivity.
Qed.

Lemma c_str_slice_length (off n : Z) :
  0 <= n -> Z.of_nat (List.length (c_str (slice data off n))) <= n.
Proof.
  intros Hn. assert (forall s : list byte, (List.length (c_str s) <= List.length s)%nat) as Hle.
  { induction s as [| c s IH]; [reflexivity|]. cbn [c_str].
    destruct (is_nul c); simpl; lia. }
  specialize (Hle (slice data off n)). unfold slice in *.
  rewrite length_firstn in Hle. lia.
Qed.

(** The description loops inside the buffer return. *)
Lemma skip_info_loop_returns (fuel : nat) (data_pos : Z) :
  0 <= data_pos < 2 ^ 32 -> (0 < fuel)%nat -> frame_size - data_pos < Z.of_nat fuel ->
  exists r, skip_info_loop fuel data frame_data frame_size data_pos = Done r
            /\ data_pos <= r < 2 ^ 32.
Proof.
  revert data_pos.
  induction fuel as [| fuel IH]; intros data_pos Hpos Hfuel0 Hfuel; [lia|].
  cbn [skip_info_loop]. destruct (Z.ltb_spec data_pos frame_size) as [Hlt | Hge].
  - destruct (load_in_bounds data (frame_data + data_pos)) as [c ->]; [lia|]. cbn [bind].
    destruct (negb (u8 c =? 0)).
    + rewrite to_u32_small by lia.
      destruct (IH (data_pos + 1)) as (r & -> & Hr); try lia. exists r. split; [reflexivity | lia].
    + exists data_pos. split; [reflexivity | lia].
  - exists data_pos. split; [reflexivity | lia].
Qed.

Lemma skip_info16_loop_returns (fuel : nat) (data_pos : Z) :
  0 <= data_pos < 2 ^ 32 -> (0 < fuel)%nat -> frame_size - data_pos < Z.of_nat fuel ->
  exists r, skip_info16_loop fuel data frame_data frame_size data_pos = Done r
            /\ data_pos <= r < 2 ^ 32.
Proof.
  revert data_pos.
  induction fuel as [| fuel IH]; intros data_pos Hpos Hfuel0 Hfuel; [lia|].
  cbn [skip_info16_loop]. rewrite (to_u32_small (frame_size - 1)) by lia.
  destruct (Z.ltb_spec data_pos (frame_size - 1)) as [Hlt | Hge].
  - destruct (load_in_bounds data (frame_data + data_pos)) as [c0 ->]; [lia|]. cbn [bind].
    rewrite (to_u32_small (data_pos + 1)) by lia.
    destruct (load_in_bounds data (frame_data + (data_pos + 1))) as [c1 Hc1]; [lia|].
    assert (exists terminator,
               (if u8 c0 =? 0
                then c1 <- load data (frame_data + (data_pos + 1)) ;; Done (u8 c1 =? 0)
                else Done false) = Done terminator) as (terminator & ->).
    { destruct (u8 c0 =? 0); [rewrite Hc1|]; cbn [bind]; eauto. }
    cbn [bind]. destruct (negb terminator).
    + rewrite to_u32_small by lia.
      destruct (IH (data_pos + 2)) as (r & -> & Hr); try lia. exists r. split; [reflexivity | lia].
    + exists data_pos. split; [reflexivity | lia].
  - exists data_pos. split; [reflexivity | lia].
Qed.

End PictureLoops.

(** [getPictureFrameData] never exhausts the counter of the embedding. *)
Lemma getPictureFrameData_not_Timeout (data : buffer) (tag : ptr) (f : Z) :
  buf_size data < 2 ^ 31 -> 0 <= f ->
  getPictureFrameData data tag (data_plus f) <> Timeout.
Proof.
  intros Hint Hf. pose proof (buf_size_nonneg data) as Hnn.
  unfold getPictureFrameData, getFrameData, sizeof_ID3v2TagFrameHeader.
  apply bind_not_Timeout; [apply getFrameSize_not_Timeout | intros frame_size _].
  apply bind_not_Timeout; [apply load_not_Timeout | intros encoding _].
  apply bind_not_Timeout;
    [apply mime_type_loop_not_Timeout; unfold buf_size in *; lia|].
  intros [data_pos mime] _. cbn zeta.
  pose proof (to_u32_range (to_u32 (data_pos + 1) + 1)).
  apply bind_not_Timeout; [|discriminate].
  destruct (u8 encoding =? 0);
    [|destruct ((u8 encoding =? 1) || (u8 encoding =? 2));
      [|destruct (u8 encoding =? 3); [|discriminate]]];
    (apply bind_not_Timeout; [|discriminate]).
  - apply skip_info_loop_not_Timeout; unfold buf_size in *; lia.
  - apply skip_info16_loop_not_Timeout; unfold buf_size in *; lia.
  - apply skip_info_loop_not_Timeout; unfold buf_size in *; lia.
Qed.

(** C8, the claim as worded fails: the APIC body is the encoding byte 0
    followed by "ab", with no NUL inside the frame; the scan stops at the
    end of the frame and the mime type returned is "ab", not "image/jpeg". *)
Lemma unterminated_mime_type_is_kept :
  getFrameSize apic_unterminated_buffer (data_plus 0) (data_plus 10) = Done 3
  /\ slice apic_unterminated_buffer 20 3 = [x00; "a"%byte; "b"%byte]
  /\ getPictureFrameData apic_unterminated_buffer (data_plus 0) (data_plus 10)
     = Done (data_plus 26, bytes_of "ab", 4294967293)
  /\ bytes_of "ab" <> default_mime_type.
Proof.
  repeat split; try reflexivity. vm_compute. discriminate.
Qed.

(** C8 (amended): for an APIC frame whose body lies in the buffer, the scan
    of the mime type stops at the first NUL or at the end of the frame,
    whichever comes first; the mime type returned is the bytes scanned, and
    it is "image/jpeg" exactly when no byte was scanned.  In particular a
    field without NUL is returned whole. *)
Theorem getPictureFrameData_mime_type (data : buffer) (tag : ptr) (f fsize : Z) :
  buf_size data < 2 ^ 31 ->
  0 <= f ->
  getFrameSize data tag (data_plus f) = Done fsize ->
  1 <= fsize ->
  f + 10 + fsize <= buf_size data ->
  let field := slice data (f + 11) (fsize - 1) in
  let scanned := c_str field in
  (exists image_data image_size,
      getPictureFrameData data tag (data_plus f)
      = Done (image_data,
              if is_empty scanned then default_mime_type else scanned,
              image_size))
  /\ (Forall (fun c => is_nul c = false) field -> scanned = field).
Proof.
  intros Hint Hf Hsize Hne Hin field scanned.
  split; [|apply c_str_no_nul].
  pose proof (getFrameSize_range _ _ _ _ Hsize) as Hrange.
  unfold getPictureFrameData, getFrameData, sizeof_ID3v2TagFrameHeader.
  change (f + (4 + 4 + 2)) with (f + 10).
  rewrite Hsize. cbn [bind].
  destruct (load_in_bounds data (f + 10)) as [encoding ->]; [lia|]. cbn [bind].
  rewrite (mime_type_loop_spec data (f + 10) fsize) by (unfold buf_size in *; lia).
  cbn zeta. cbn [bind app].
  replace (f + 10 + 1) with (f + 11) by lia. fold field. fold scanned.
  pose proof (c_str_slice_length data (f + 11) (fsize - 1) ltac:(lia)) as Hlen.
  fold field in Hlen. fold scanned in Hlen.
  set (data_pos := 1 + Z.of_nat (List.length scanned)) in *.
  rewrite (to_u32_small (data_pos + 1)) by lia.
  rewrite (to_u32_small (data_pos + 1 + 1)) by lia.
  destruct (skip_info_loop_returns data (f + 10) fsize ltac:(lia) Hint ltac:(lia)
              (S (List.length data)) (data_pos + 1 + 1)) as (r1 & Hr1 & _);
    [unfold buf_size in *; lia .. |].
  destruct (skip_info16_loop_returns data (f + 10) fsize ltac:(lia) Hint ltac:(lia) ltac:(lia)
              (S (List.length data)) (data_pos + 1 + 1)) as (r2 & Hr2 & _);
    [unfold buf_size in *; lia .. |].
  rewrite Hr1, Hr2.
  destruct (u8 encoding =? 0);
    [|destruct ((u8 encoding =? 1) || (u8 encoding =? 2));
      [|destruct (u8 encoding =? 3)]];
    cbn [bind]; eauto.
Qed.

Lemma getPictureFrameData_mime_type_witness :
  (exists image_data image_size,
      getPictureFrameData apic_unterminated_buffer (data_plus 0) (data_plus 10)
      = Done (image_data,
              if is_empty (c_str (slice apic_unterminated_buffer (10 + 11) (3 - 1)))
              then default_mime_type
              else c_str (slice apic_unterminated_buffer (10 + 11) (3 - 1)),
              image_size))
  /\ (Forall (fun c => is_nul c = false) (slice apic_unterminated_buffer (10 + 11) (3 - 1)) ->
      c_str (slice apic_unterminated_buffer (10 + 11) (3 - 1))
      = slice apic_unterminated_buffer (10 + 11) (3 - 1)).
Proof.
  apply (getPictureFrameData_mime_type apic_unterminated_buffer (data_plus 0) 10 3).
  - vm_compute. reflexivity.
  - lia.
  - reflexivity.
  - lia.
  - vm_compute. discriminate.
Defined.

(** ** Metadata assembler *)

Lemma load_frame_id_Done (data : buffer) (f : Z) (id : list byte) :
  load_frame_id data (data_plus f) = Done id ->
  exists h0 h1 h2 h3,
    id = [h0; h1; h2; h3; NUL] /\ frame_header_id data (data_plus f) = [h0; h1; h2; h3].
Proof.
  unfold load_frame_id, frame_header_id. intros H.
  bind_inv H. bind_inv H. bind_inv H. bind_inv H. injection H as <-.
  exists v, v0, v1, v2. split; [reflexivity|].
  pose proof (load_range _ _ _ E).
  rewrite (slice_step _ _ _ _ E) by lia.
  rewrite (slice_step _ _ _ _ E0) by lia.
  replace (f + 1 + 1) with (f + 2) by lia.
  rewrite (slice_step _ _ _ _ E1) by lia.
  replace (f + 2 + 1) with (f + 3) by lia.
  rewrite (slice_step _ _ _ _ E2) by lia.
  rewrite slice_nil by lia. reflexivity.
Qed.

(** What one pass of the loop body does to the record: a frame with a
    recognized identifier assigns its field and nothing else; any other
    frame leaves the record as it is. *)
Lemma getMetadata_frame_spec (data : buffer) (tag frame : ptr) (m m' : MP3_Metadata) :
  getMetadata_frame data tag frame m = Done m' ->
  match frame_field data frame with
  | Some fld =>
      holds_decoded data tag frame fld m'
      /\ forall other, other <> fld -> field_content other m' = field_content other m
  | None => m' = m
  end.
Proof.
  unfold getMetadata_frame, frame_field. intros H. bind_inv H.
  destruct frame as [| f]; [discriminate|].
  apply load_frame_id_Done in E. destruct E as (h0 & h1 & h2 & h3 & -> & ->).
  rewrite !strcmp_eq_frame_id in H by reflexivity.
  unfold field_of_id.
  repeat match goal with
         | |- context [bytes_eqb ?id ?lit] =>
             destruct (bytes_eqb id lit); cbn [orb] in H
         end;
    try (bind_inv H; try destruct v as [[p mime] sz]; injection H as <-;
         split; [cbn; eauto | intros other Hother; destruct other; cbn; congruence]).
  injection H as <-. reflexivity.
Qed.

Lemma holds_decoded_content (data : buffer) (tag frame : ptr) (fld : field)
    (m m' : MP3_Metadata) :
  field_content fld m' = field_content fld m ->
  holds_decoded data tag frame fld m -> holds_decoded data tag frame fld m'.
Proof.
  destruct fld; cbn; intros [= Heq]; try congruence.
  intros (p & sz & Hdec & Hp & Hsz). exists p, sz. repeat split; congruence.
Qed.

Lemma assemble_app (data : buffer) (before after : list (ptr * ptr)) (m : MP3_Metadata) :
  assemble data (before ++ after) m
  = (m1 <- assemble data before m ;; assemble data after m1).
Proof.
  revert m. induction before as [| [tag frame] before IH]; intros m; [reflexivity|].
  cbn [app assemble]. destruct (getMetadata_frame data tag frame m); cbn [bind]; auto.
Qed.

(** Frames that stand for other fields leave a field as it is. *)
Lemma assemble_preserves (data : buffer) (scanned : list (ptr * ptr)) (fld : field)
    (m m' : MP3_Metadata) :
  (forall tag frame, In (tag, frame) scanned -> frame_field data frame <> Some fld) ->
  assemble data scanned m = Done m' ->
  field_content fld m' = field_content fld m.
Proof.
  revert m. induction scanned as [| [tag frame] scanned IH]; intros m Hothers Hrun.
  - injection Hrun as <-. reflexivity.
  - cbn [assemble] in Hrun. bind_inv Hrun.
    rewrite (IH v) by
      (try assumption; intros t fr Hin; apply (Hothers t fr); right; exact Hin).
    apply getMetadata_frame_spec in E.
    pose proof (Hothers tag frame (or_introl eq_refl)) as Hother.
    destruct (frame_field data frame) as [g |]; [|congruence].
    destruct E as [_ Hrest]. apply Hrest. congruence.
Qed.

(** Over any scanned sequence, the last frame of a field decides it. *)
Lemma assemble_last_write (data : buffer) (before after : list (ptr * ptr))
    (tag frame : ptr) (fld : field) (m m' : MP3_Metadata) :
  assemble data (before ++ (tag, frame) :: after) m = Done m' ->
  frame_field data frame = Some fld ->
  (forall tag' frame', In (tag', frame') after -> frame_field data frame' <> Some fld) ->
  holds_decoded data tag frame fld m'.
Proof.
  intros Hrun Hfld Hlater. rewrite assemble_app in Hrun. bind_inv Hrun.
  cbn [assemble] in Hrun. bind_inv Hrun.
  apply getMetadata_frame_spec in E0. rewrite Hfld in E0. destruct E0 as [Hdec _].
  apply (holds_decoded_content _ _ _ _ v0); [|assumption].
  eapply assemble_preserves; eassumption.
Qed.

Lemma getMetadata_frames_assemble (data : buffer) (tag : ptr) (tag_frames : list ptr)
    (m : MP3_Metadata) :
  getMetadata_frames data tag tag_frames m = assemble data (map (pair tag) tag_frames) m.
Proof.
  revert m. induction tag_frames as [| frame rest IH]; intros m; [reflexivity|].
  cbn [getMetadata_frames map assemble].
  destruct (getMetadata_frame data tag frame m); cbn [bind]; auto.
Qed.

(** The two nested loops visit the frames in the order of [scan_tags]. *)
Lemma getMetadata_tags_assemble (fuel : nat) (data : buffer) (tags : list ptr)
    (m m' : MP3_Metadata) :
  getMetadata_tags fuel data tags m = Done m' ->
  exists scanned, scan_tags fuel data tags = Done scanned /\ assemble data scanned m = Done m'.
Proof.
  revert m. induction tags as [| tag rest IH]; intros m Hrun.
  - exists []. split; [reflexivity | assumption].
  - cbn [getMetadata_tags scan_tags] in *. bind_inv Hrun. bind_inv Hrun.
    destruct (IH _ Hrun) as (later & Hlater & Hrest).
    exists (map (pair tag) v ++ later). rewrite E, Hlater. cbn [bind].
    split; [reflexivity|].
    rewrite assemble_app, <- getMetadata_frames_assemble, E0. cbn [bind]. assumption.
Qed.

(** Every record that [getMetadata] returns comes from a scan in ascending
    tag order, and holds in each field what the decoder returns for the
    last frame of that field; a field without a frame is as in the fresh
    record. *)
Lemma getMetadata_record_last_write (fuel : nat) (data : buffer) (m : MP3_Metadata) :
  buf_size data < 2 ^ 31 ->
  getMetadata fuel data = Done m ->
  exists tags scanned,
    getID3v2Tags data = Done tags
    /\ ascending tags
    /\ scan_tags fuel data tags = Done scanned
    /\ (forall before tag frame after fld,
          scanned = before ++ (tag, frame) :: after ->
          frame_field data frame = Some fld ->
          (forall tag' frame',
              In (tag', frame') after -> frame_field data frame' <> Some fld) ->
          holds_decoded data tag frame fld m)
    /\ (forall fld,
          (forall tag frame, In (tag, frame) scanned -> frame_field data frame <> Some fld) ->
          field_content fld m = field_content fld new_metadata).
Proof.
  intros Hint Hrun. unfold getMetadata in Hrun. bind_inv Hrun.
  apply getMetadata_tags_assemble in Hrun. destruct Hrun as (scanned & Hscan & Hrun).
  exists v, scanned. split; [assumption|].
  split; [eapply getID3v2Tags_ascending; eassumption|].
  split; [assumption|]. split.
  - intros before tag frame after fld -> Hfld Hlater.
    eapply assemble_last_write; eassumption.
  - intros fld Hnone. eapply assemble_preserves; eassumption.
Qed.

(** ** MPEG frame header (diagnostic path) *)

Lemma bits_range (w from width : Z) : 0 <= width -> 0 <= bits w from width < 2 ^ width.
Proof.
  intros Hwidth. unfold bits. rewrite Z.land_ones by assumption.
  apply Z.mod_pos_bound. apply Z.pow_pos_nonneg; lia.
Qed.

Lemma lsb_first_layout_in_range (b0 b1 b2 b3 : byte) :
  header_in_range (lsb_first_layout b0 b1 b2 b3).
Proof.
  unfold header_in_range, lsb_first_layout. cbn [sync version layer protection bitrate
    frequency padding private_bit mode mode_extension copyright original emphasis_bits].
  set (w := u8 b0 + u8 b1 * 2 ^ 8 + u8 b2 * 2 ^ 16 + u8 b3 * 2 ^ 24).
  pose proof (bits_range w 0 11). pose proof (bits_range w 11 2).
  pose proof (bits_range w 13 2). pose proof (bits_range w 15 1).
  pose proof (bits_range w 16 4). pose proof (bits_range w 20 2).
  pose proof (bits_range w 22 1). pose proof (bits_range w 23 1).
  pose proof (bits_range w 24 2). pose proof (bits_range w 26 2).
  pose proof (bits_range w 28 1). pose proof (bits_range w 29 1).
  pose proof (bits_range w 30 2).
  change (2 ^ 2) with 4 in *. change (2 ^ 1) with 2 in *. change (2 ^ 4) with 16 in *.
  lia.
Qed.

Lemma load_header_not_Timeout (view : bitfield_layout) (data : buffer) (p : Z) :
  load_header view data p <> Timeout.
Proof.
  unfold load_header.
  repeat (apply bind_not_Timeout; [apply load_not_Timeout | intros ? _]). discriminate.
Qed.

Lemma load_header_in_bounds (view : bitfield_layout) (data : buffer) (p : Z) :
  0 <= p -> p + 4 <= buf_size data ->
  exists b0 b1 b2 b3,
    slice data p 4 = [b0; b1; b2; b3] /\ load_header view data p = Done (view b0 b1 b2 b3).
Proof.
  intros Hp0 Hp. unfold load_header.
  destruct (load_in_bounds data p) as [b0 E0]; [lia|].
  destruct (load_in_bounds data (p + 1)) as [b1 E1]; [lia|].
  destruct (load_in_bounds data (p + 2)) as [b2 E2]; [lia|].
  destruct (load_in_bounds data (p + 3)) as [b3 E3]; [lia|].
  exists b0, b1, b2, b3.
  rewrite (slice_step _ _ _ _ E0) by lia.
  rewrite (slice_step _ _ _ _ E1) by lia.
  replace (p + 1 + 1) with (p + 2) by lia.
  rewrite (slice_step _ _ _ _ E2) by lia.
  replace (p + 2 + 1) with (p + 3) by lia.
  rewrite (slice_step _ _ _ _ E3) by lia.
  rewrite slice_nil by lia. rewrite E0, E1, E2, E3. split; reflexivity.
Qed.

Lemma isFrameHeader_in_bounds (view : bitfield_layout) (data : buffer) (p : Z) :
  0 <= p -> p + 4 <= buf_size data ->
  exists h, load_header view data p = Done h
            /\ isFrameHeader view data p = Done (accepted_header h).
Proof.
  intros Hp0 Hp. destruct (load_header_in_bounds view data p Hp0 Hp)
    as (b0 & b1 & b2 & b3 & _ & Hload).
  exists (view b0 b1 b2 b3). split; [assumption|].
  unfold isFrameHeader. rewrite Hload. reflexivity.
Qed.

(** The loop from [i] on: it stays inside the buffer and stops at the first
    accepted header. *)
Lemma getFirstFramePtr_loop_spec (view : bitfield_layout) (data : buffer)
    (fuel : nat) (i : Z) :
  0 <= i -> (0 < fuel)%nat -> buf_size data - 4 - i < Z.of_nat fuel ->
  exists r,
    getFirstFramePtr_loop fuel view data i = Done r
    /\ match r with
       | data_plus found =>
           i <= found < buf_size data - 4
           /\ isFrameHeader view data found = Done true
           /\ forall j, i <= j < found -> isFrameHeader view data j = Done false
       | nullptr =>
           forall j, i <= j < buf_size data - 4 -> isFrameHeader view data j = Done false
       end.
Proof.
  revert i. induction fuel as [| fuel IH]; intros i Hi Hfuel0 Hfuel; [lia|].
  cbn [getFirstFramePtr_loop].
  destruct (Z.ltb_spec i (buf_size data - 4)) as [Hlt | Hge].
  - destruct (isFrameHeader_in_bounds view data i) as (h & _ & Hhere); try lia.
    rewrite Hhere. cbn [bind]. destruct (accepted_header h) eqn:Hacc.
    + exists (data_plus i). split; [reflexivity|].
      split; [lia|]. split; [assumption|]. intros j Hj. lia.
    + destruct (IH (i + 1)) as (r & Hrun & Hr); try lia.
      exists r. split; [assumption|]. destruct r as [| found].
      * intros j Hj. destruct (Z.eq_dec j i) as [-> | Hne]; [assumption|].
        apply Hr. lia.
      * destruct Hr as (Hrange & Hfound & Hbefore).
        split; [lia|]. split; [assumption|].
        intros j Hj. destruct (Z.eq_dec j i) as [-> | Hne]; [assumption|].
        apply Hbefore. lia.
  - exists nullptr. split; [reflexivity|]. intros j Hj. lia.
Qed.

Lemma to_int_small (z : Z) : 0 <= z < 2 ^ 31 -> to_int z = z.
Proof. intros H. unfold to_int. rewrite Z.mod_small by lia. lia. Qed.



(** *** The report of [printFirstFrame] *)

Lemma at_index_Value {A : Type} (table : list A) (i : Z) :
  0 <= i < Z.of_nat (List.length table) -> exists a, at_index table i = Value a.
Proof.
  intros Hi. unfold at_index. destruct (Z.ltb_spec i 0); [lia|].
  destruct (nth_error table (Z.to_nat i)) as [a |] eqn:E; [eauto|].
  apply nth_error_None in E. lia.
Qed.

(** The checks of [isFrameHeader], spelled out. *)
Lemma accepted_header_fields (h : MP3FrameHeader) :
  accepted_header h = true ->
  sync h = 0x7FF /\ version h <> 1 /\ layer h <> 0 /\ bitrate h <> 0xF /\ frequency h <> 3.
Proof.
  unfold accepted_header.
  destruct (Z.eqb_spec (sync h) 0x7FF); [|discriminate].
  destruct (Z.eqb_spec (version h) 1); [discriminate|].
  destruct (Z.eqb_spec (layer h) 0); [discriminate|].
  destruct (Z.eqb_spec (bitrate h) 0xF); [discriminate|].
  destruct (Z.eqb_spec (frequency h) 3); [discriminate|].
  auto.
Qed.

Lemma bitrate_lookup (v l b : Z) :
  1 <= l < 4 -> 0 <= b < 16 ->
  exists kbps,
    (if v =? 3 then at_index2 bitratesMPEG1 (3 - l) b else at_index2 bitratesMPEG2 (3 - l) b)
    = Value kbps
    /\ 0 <= kbps <= 448.
Proof.
  intros Hl Hb.
  assert (l = 1 \/ l = 2 \/ l = 3) as [-> | [-> | ->]] by lia;
  assert (b = 0 \/ b = 1 \/ b = 2 \/ b = 3 \/ b = 4 \/ b = 5 \/ b = 6 \/ b = 7 \/ b = 8
          \/ b = 9 \/ b = 10 \/ b = 11 \/ b = 12 \/ b = 13 \/ b = 14 \/ b = 15)
    as Hcases by lia;
  repeat (destruct Hcases as [-> | Hcases]); try subst b;
  destruct (v =? 3); eexists; (split; [reflexivity|]); vm_compute; split; discriminate.
Qed.

Lemma frequency_lookup (v f : Z) :
  0 <= v < 4 -> v <> 1 -> 0 <= f < 3 ->
  exists hz, at_index2 frequencies (3 - v) f = Value hz /\ 8000 <= hz <= 48000.
Proof.
  intros Hv Hv1 Hf.
  assert (v = 0 \/ v = 2 \/ v = 3) as [-> | [-> | ->]] by lia;
  assert (f = 0 \/ f = 1 \/ f = 2) as [-> | [-> | ->]] by lia;
  eexists; (split; [reflexivity|]); vm_compute; split; discriminate.
Qed.

Lemma div_bounds (a b : Z) : 0 <= a -> 0 < b -> 0 <= a / b <= a.
Proof.
  intros Ha Hb. split; [apply Z.div_pos; lia|].
  apply Z.div_le_upper_bound; nia.
Qed.

Lemma frame_report_accepted (h : MP3FrameHeader) :
  header_in_range h ->
  accepted_header h = true ->
  exists kbps hz lines,
    0 <= kbps <= 448 /\ 8000 <= hz <= 48000
    /\ frame_report h = Value lines
    /\ In ("Bitrate"%string, Number kbps) lines
    /\ In ("Frequency"%string, Number hz) lines
    /\ In ("Frame size"%string,
           Number (if layer h =? 3
                   then (12 * (kbps * 1000) / hz + padding h) * 4
                   else 144 * (kbps * 1000) / hz + padding h)) lines.
Proof.
  intros Hrange Hacc.
  destruct Hrange as (_ & Hv & Hl & _ & Hb & Hf & Hp & _ & Hm & _ & _ & _ & He).
  apply accepted_header_fields in Hacc. destruct Hacc as (_ & Hv1 & Hl0 & _ & Hf3).
  destruct (bitrate_lookup (version h) (layer h) (bitrate h)) as (kbps & Hkbps & Hk);
    try lia.
  destruct (frequency_lookup (version h) (frequency h)) as (hz & Hhz & Hh); try lia.
  destruct (at_index_Value versions (version h)) as (vn & Hvn); [simpl; lia|].
  destruct (at_index_Value channelMode (mode h)) as (mn & Hmn); [simpl; lia|].
  destruct (at_index_Value emphasis (emphasis_bits h)) as (en & Hen); [simpl; lia|].
  exists kbps, hz. unfold frame_report.
  rewrite Hkbps. cbn [and_then]. rewrite Hhz. cbn [and_then].
  rewrite Hvn, Hmn, Hen. cbn [and_then].
  rewrite (to_u32_small kbps) by lia. rewrite (to_u32_small hz) by lia.
  rewrite (to_u32_small (kbps * 1000)) by lia.
  unfold udiv. destruct (Z.eqb_spec hz 0) as [| _]; [lia|].
  pose proof (div_bounds (12 * (kbps * 1000)) hz ltac:(lia) ltac:(lia)).
  pose proof (div_bounds (144 * (kbps * 1000)) hz ltac:(lia) ltac:(lia)).
  destruct (layer h =? 3); cbn [and_then];
    rewrite ?(to_u32_small (12 * (kbps * 1000))), ?(to_u32_small (144 * (kbps * 1000)))
      by lia;
    rewrite ?(to_u32_small (12 * (kbps * 1000) / hz + padding h)),
            ?(to_u32_small (144 * (kbps * 1000) / hz + padding h)) by lia;
    rewrite ?(to_u32_small ((12 * (kbps * 1000) / hz + padding h) * 4)) by lia;
    eexists; (split; [assumption|]); (split; [assumption|]); (split; [reflexivity|]);
    cbn [In]; repeat split; auto 20.
Qed.

(** X2: for a header that [isFrameHeader] accepts, the report of
    [printFirstFrame] is defined: the four table indices are inside their
    tables, the frequency found is not zero (so the division is defined),
    and no step of the frame size computation exceeds 32 bits. *)
Theorem frame_report_defined (h : MP3FrameHeader) :
  header_in_range h ->
  accepted_header h = true ->
  exists kbps hz lines,
    0 <= kbps <= 448 /\ 8000 <= hz <= 48000
    /\ frame_report h = Value lines
    /\ In ("Bitrate"%string, Number kbps) lines
    /\ In ("Frequency"%string, Number hz) lines
    /\ In ("Frame size"%string,
           Number (if layer h =? 3
                   then (12 * (kbps * 1000) / hz + padding h) * 4
                   else 144 * (kbps * 1000) / hz + padding h)) lines.
Proof. exact (frame_report_accepted h). Qed.

Lemma frame_report_defined_witness :
  exists kbps hz lines,
    0 <= kbps <= 448 /\ 8000 <= hz <= 48000
    /\ frame_report (lsb_first_layout xff xbf x09 x00) = Value lines
    /\ In ("Bitrate"%string, Number kbps) lines
    /\ In ("Frequency"%string, Number hz) lines
    /\ In ("Frame size"%string,
           Number (if layer (lsb_first_layout xff xbf x09 x00) =? 3
                   then (12 * (kbps * 1000) / hz
                         + padding (lsb_first_layout xff xbf x09 x00)) * 4
                   else 144 * (kbps * 1000) / hz
                        + padding (lsb_first_layout xff xbf x09 x00))) lines.
Proof.
  apply (frame_report_defined (lsb_first_layout xff xbf x09 x00)).
  - apply lsb_first_layout_in_range.
  - reflexivity.
Defined.

(** X3: whatever the buffer, [printFirstFrame] reads no byte outside the
    buffer, no element outside a table and never divides by zero, provided
    the mapping of the bit-fields gives every field a value of its width. *)
Theorem printFirstFrame_defined (view : bitfield_layout) (data : buffer) :
  (forall b0 b1 b2 b3, header_in_range (view b0 b1 b2 b3)) ->
  exists lines, printFirstFrame view data = Done (Value lines).
Proof.
  intros Hview. unfold printFirstFrame.
  unfold getFirstFramePtr. rewrite to_int_small by lia.
  destruct (getFirstFramePtr_loop_spec view data (S (List.length data)) 0)
    as (r & -> & Hr); [lia | lia | unfold buf_size; lia |].
  cbn [bind]. destruct r as [| f]; [eauto|].
  destruct Hr as (Hf & Hfound & _).
  destruct (load_header_in_bounds view data f) as (b0 & b1 & b2 & b3 & _ & Hload);
    try lia.
  unfold isFrameHeader in Hfound. rewrite Hload in *. cbn [bind] in *.
  injection Hfound as Hacc.
  destruct (frame_report_accepted _ (Hview b0 b1 b2 b3) Hacc)
    as (_ & _ & lines & _ & _ & -> & _).
  eauto.
Qed.

Lemma printFirstFrame_defined_witness :
  exists lines, printFirstFrame lsb_first_layout mpeg_buffer = Done (Value lines).
Proof.
  apply (printFirstFrame_defined lsb_first_layout mpeg_buffer).
  apply lsb_first_layout_in_range.
Defined.

(** ** More on the locator and the frame walker *)

(** X4: on a buffer of at least 10 bytes [getID3v2Tags] stays inside the
    buffer and returns, in ascending order and without null pointers,
    exactly the offsets [i] with [0 <= i < size - 10] at which the buffer
    holds "ID3"; every header reported lies wholly inside the buffer. *)
Theorem getID3v2Tags_exact (data : buffer) :
  10 <= buf_size data < 2 ^ 31 ->
  exists tags,
    getID3v2Tags data = Done tags
    /\ ascending tags
    /\ ~ In nullptr tags
    /\ forall i, In (data_plus i) tags
                 <-> 0 <= i < buf_size data - 10 /\ slice data i 3 = bytes_of "ID3".
Proof.
  intros Hsize. exists (map data_plus (id3_offsets data)).
  split; [apply getID3v2Tags_spec; assumption|].
  split; [apply id3_offsets_ascending|]. split.
  - intros Hin. apply in_map_iff in Hin. destruct Hin as (i & Hi & _). discriminate.
  - intros i. rewrite <- id3_offsets_spec. rewrite in_map_iff. split.
    + intros (j & [= ->] & Hj). assumption.
    + intros Hi. exists i. auto.
Qed.

Lemma getID3v2Tags_exact_witness :
  exists tags,
    getID3v2Tags two_tags_buffer = Done tags
    /\ ascending tags
    /\ ~ In nullptr tags
    /\ forall i, In (data_plus i) tags
                 <-> 0 <= i < buf_size two_tags_buffer - 10
                     /\ slice two_tags_buffer i 3 = bytes_of "ID3".
Proof.
  apply (getID3v2Tags_exact two_tags_buffer). vm_compute. split; discriminate || reflexivity.
Defined.

(** X5: on every buffer of fewer than 10 bytes, the empty one included,
    [getID3v2Tags] reads outside the buffer: the unsigned loop bound
    [size - sizeof(ID3v2TagHeader)] wraps around and the scan is not
    stopped. *)
Theorem getID3v2Tags_below_10_bytes (data : buffer) :
  buf_size data < 10 -> getID3v2Tags data = OutOfBounds.
Proof. exact (getID3v2Tags_short data). Qed.

Lemma getID3v2Tags_below_10_bytes_witness : getID3v2Tags [] = OutOfBounds.
Proof. apply (getID3v2Tags_below_10_bytes []). vm_compute. reflexivity. Defined.

Lemma next_pos_simpl (pos frame_size : Z) :
  0 <= pos < 2 ^ 32 -> 0 <= frame_size < 2 ^ 32 ->
  to_u32 (to_size_t (to_size_t pos
                     + to_size_t (sizeof_ID3v2TagFrameHeader + to_size_t frame_size)))
  = to_u32 (pos + 10 + frame_size).
Proof.
  intros Hpos Hn. unfold sizeof_ID3v2TagFrameHeader.
  rewrite (to_size_t_small frame_size) by lia.
  rewrite (to_size_t_small pos) by lia.
  rewrite (to_size_t_small (4 + 4 + 2 + frame_size)) by lia.
  rewrite to_size_t_small by lia. f_equal. lia.
Qed.

Section Walk.

Variable data : buffer.
Variable tag : ptr.
Variables start_pos tag_size : Z.

Hypothesis size_is_int : buf_size data < 2 ^ 31.
Hypothesis tag_end_range : 10 <= start_pos + tag_size < 2 ^ 32.

(** A loop that returns has followed the relation [walked]. *)
Lemma getID3v2TagFrames_loop_walked (fuel : nat) (pos : Z) (frames result : list ptr) :
  0 <= pos < 2 ^ 32 ->
  getID3v2TagFrames_loop fuel data tag start_pos tag_size pos frames = Done result ->
  exists suffix,
    result = frames ++ suffix /\ walked data tag (start_pos + tag_size) pos suffix.
Proof.
  revert pos frames. induction fuel as [| fuel IH]; intros pos frames Hpos Hrun.
  - discriminate.
  - cbn [getID3v2TagFrames_loop] in Hrun.
    rewrite (walker_guard start_pos tag_size tag_end_range),
      (walker_bounds_check data size_is_int) in Hrun by assumption.
    destruct (Z.ltb_spec (pos + 10) (start_pos + tag_size)) as [Hguard | Hguard];
      [|injection Hrun as <-; exists []; rewrite app_nil_r; split;
        [reflexivity | constructor; lia]].
    destruct (Z.ltb_spec (buf_size data) (pos + 10)) as [Hroom | Hroom];
      [injection Hrun as <-; exists []; rewrite app_nil_r; split;
       [reflexivity | constructor; lia]|].
    bind_inv Hrun. destruct (Z.eqb_spec (u8 v) 0) as [Hzero | Hnonzero].
    + injection Hrun as <-. exists []. rewrite app_nil_r. split; [reflexivity|].
      constructor. right. right. eauto.
    + bind_inv Hrun. pose proof (getFrameSize_range _ _ _ _ E0) as Hn.
      rewrite next_pos_simpl in Hrun by assumption.
      apply IH in Hrun; [|apply to_u32_range].
      destruct Hrun as (suffix & -> & Hwalk).
      exists (data_plus pos :: suffix). rewrite <- app_assoc. split; [reflexivity|].
      econstructor; eassumption.
Qed.

End Walk.

Lemma walked_functional (data : buffer) (tag : ptr) (tag_end pos : Z) (l1 l2 : list ptr) :
  walked data tag tag_end pos l1 -> walked data tag tag_end pos l2 -> l1 = l2.
Proof.
  intros H1. revert l2. induction H1 as [pos Hstop | pos h0 n rest Hg Hr Hh Hnz Hn _ IH];
    intros l2 H2; inversion H2 as [pos' Hstop' | pos' h0' n' rest' Hg' Hr' Hh' Hnz' Hn' Hrest'];
    subst; try reflexivity.
  - destruct Hstop as [? | [? | (h & Hh & Hz)]]; try lia. congruence.
  - destruct Hstop' as [? | [? | (h & Hh'' & Hz)]]; try lia. congruence.
  - f_equal. apply IH. congruence.
Qed.

Lemma walked_from_member (data : buffer) (tag : ptr) (tag_end pos q : Z)
    (before after : list ptr) :
  walked data tag tag_end pos (before ++ data_plus q :: after) ->
  walked data tag tag_end q (data_plus q :: after).
Proof.
  revert pos. induction before as [| x before IH]; intros pos Hwalk.
  - inversion Hwalk; subst. assumption.
  - inversion Hwalk; subst. eapply IH. eassumption.
Qed.

Lemma walked_NoDup (data : buffer) (tag : ptr) (tag_end pos : Z) (frames : list ptr) :
  walked data tag tag_end pos frames -> NoDup frames.
Proof.
  induction 1 as [| pos h0 n rest Hg Hr Hh Hnz Hn Hrest IH]; constructor; [|assumption].
  intros Hin. apply in_split in Hin. destruct Hin as (before & after & ->).
  pose proof (walked_from_member _ _ _ _ _ _ _ Hrest) as Hagain.
  assert (walked data tag tag_end pos (data_plus pos :: before ++ data_plus pos :: after))
    as Hfull by (econstructor; eassumption).
  pose proof (walked_functional _ _ _ _ _ _ Hagain Hfull) as Heq.
  apply (f_equal (@List.length ptr)) in Heq. cbn [List.length] in Heq.
  rewrite length_app in Heq. cbn [List.length] in Heq. lia.
Qed.

Lemma walked_members (data : buffer) (tag : ptr) (tag_end pos : Z) (frames : list ptr) :
  walked data tag tag_end pos frames ->
  forall frame, In frame frames ->
    exists f h0, frame = data_plus f /\ f + 10 <= buf_size data
                 /\ load data f = Done h0 /\ u8 h0 <> 0.
Proof.
  induction 1 as [| pos h0 n rest Hg Hr Hh Hnz Hn Hrest IH]; intros frame Hin.
  - destruct Hin.
  - destruct Hin as [<- | Hin]; [|apply IH; assumption].
    exists pos, h0. auto.
Qed.

Lemma walked_chained (data : buffer) (tag : ptr) (tag_end pos : Z) (frames : list ptr) :
  walked data tag tag_end pos frames ->
  chained data tag frames
  /\ (frames = [] \/ exists rest, frames = data_plus pos :: rest).
Proof.
  induction 1 as [| pos h0 n rest Hg Hr Hh Hnz Hn Hrest IH].
  - split; [constructor | left; reflexivity].
  - split; [|right; eauto]. destruct IH as [Hchain [-> | (rest' & ->)]].
    + constructor.
    + econstructor; [eassumption | reflexivity | assumption].
Qed.

Lemma start_pos_simpl (t : Z) :
  0 <= t < 2 ^ 31 ->
  to_u32 (to_size_t (to_size_t t + sizeof_ID3v2TagHeader)) = t + 10.
Proof.
  intros Ht. unfold sizeof_ID3v2TagHeader.
  rewrite (to_size_t_small t) by lia. rewrite to_size_t_small by lia.
  apply to_u32_small. lia.
Qed.

(** A walk that returns, as a relation. *)
Lemma getID3v2TagFrames_walked
    (fuel : nat) (data : buffer) (tagStart S : Z) (frames : list ptr) :
  buf_size data < 2 ^ 31 ->
  0 <= tagStart ->
  getTagSize data (data_plus tagStart) = Done S ->
  getID3v2TagFrames fuel data (data_plus tagStart) = Done frames ->
  walked data (data_plus tagStart) (tagStart + 10 + S) (tagStart + 10) frames.
Proof.
  intros Hint Htag HS Hrun.
  pose proof (getTagSize_Done _ _ _ HS) as (HSrange & _ & Hhdr).
  unfold getID3v2TagFrames in Hrun. rewrite HS in Hrun. cbn [bind] in Hrun.
  rewrite start_pos_simpl in Hrun by lia.
  apply getID3v2TagFrames_loop_walked in Hrun; try lia.
  destruct Hrun as (suffix & -> & Hwalk). exact Hwalk.
Qed.

(** X6: the frames that a walk returns are chained: the first one is at
    [tagStart + 10], each further one starts at the offset of the frame
    before it plus 10 plus that frame's decoded size (modulo [2^32]), and
    the first identifier byte of every frame is not zero. *)
Theorem getID3v2TagFrames_chained
    (fuel : nat) (data : buffer) (tagStart S : Z) (frames : list ptr) :
  buf_size data < 2 ^ 31 ->
  0 <= tagStart ->
  getTagSize data (data_plus tagStart) = Done S ->
  getID3v2TagFrames fuel data (data_plus tagStart) = Done frames ->
  chained data (data_plus tagStart) frames
  /\ (frames = [] \/ exists rest, frames = data_plus (tagStart + 10) :: rest)
  /\ forall frame, In frame frames ->
       exists f h0, frame = data_plus f /\ load data f = Done h0 /\ u8 h0 <> 0.
Proof.
  intros Hint Htag HS Hrun.
  pose proof (getID3v2TagFrames_walked _ _ _ _ _ Hint Htag HS Hrun) as Hwalk.
  destruct (walked_chained _ _ _ _ _ Hwalk) as [Hchain Hfirst].
  split; [assumption|]. split; [assumption|].
  intros frame Hin.
  destruct (walked_members _ _ _ _ _ Hwalk frame Hin) as (f & h0 & -> & _ & Hh & Hnz).
  eauto.
Qed.

Lemma getID3v2TagFrames_chained_witness :
  chained two_tags_buffer (data_plus 0) [data_plus 10; data_plus 24]
  /\ ([data_plus 10; data_plus 24] = []
      \/ exists rest, [data_plus 10; data_plus 24] = data_plus (0 + 10) :: rest)
  /\ forall frame, In frame [data_plus 10; data_plus 24] ->
       exists f h0, frame = data_plus f /\ load two_tags_buffer f = Done h0 /\ u8 h0 <> 0.
Proof.
  apply (getID3v2TagFrames_chained 5 two_tags_buffer 0 38).
  - vm_compute. reflexivity.
  - lia.
  - reflexivity.
  - reflexivity.
Defined.

Lemma frame_offsets_bounded (data : buffer) (frames : list ptr) :
  9 <= buf_size data ->
  NoDup frames ->
  (forall frame, In frame frames ->
     exists f, frame = data_plus f /\ 0 <= f /\ f + 10 <= buf_size data) ->
  Z.of_nat (List.length frames) <= buf_size data - 9.
Proof.
  intros Hsize Hnodup Hin.
  set (offset := fun frame => match frame with
                              | data_plus f => Z.to_nat f
                              | nullptr => 0%nat
                              end).
  assert (NoDup (map offset frames)) as Hoffs.
  { apply NoDup_map_NoDup_ForallPairs; [|assumption].
    intros a b Ha Hb Hab.
    destruct (Hin a Ha) as (fa & -> & Hfa & _).
    destruct (Hin b Hb) as (fb & -> & Hfb & _).
    simpl in Hab. f_equal. lia. }
  assert (incl (map offset frames) (seq 0 (Z.to_nat (buf_size data - 9)))) as Hincl.
  { intros n Hn. apply in_map_iff in Hn. destruct Hn as (frame & <- & Hframe).
    destruct (Hin frame Hframe) as (f & -> & Hf0 & Hf). simpl. apply in_seq. lia. }
  pose proof (NoDup_incl_length Hoffs Hincl) as Hlen.
  rewrite length_map, length_seq in Hlen. lia.
Qed.

(** X7: a walk that returns has yielded no frame twice, hence at most
    [size - 9] frames.  (A position that comes back makes the loop run for
    ever.) *)
Theorem getID3v2TagFrames_no_repeat
    (fuel : nat) (data : buffer) (tagStart S : Z) (frames : list ptr) :
  buf_size data < 2 ^ 31 ->
  0 <= tagStart ->
  getTagSize data (data_plus tagStart) = Done S ->
  getID3v2TagFrames fuel data (data_plus tagStart) = Done frames ->
  NoDup frames /\ Z.of_nat (List.length frames) <= buf_size data - 9.
Proof.
  intros Hint Htag HS Hrun.
  pose proof (getID3v2TagFrames_walked _ _ _ _ _ Hint Htag HS Hrun) as Hwalk.
  pose proof (walked_NoDup _ _ _ _ _ Hwalk) as Hnodup.
  split; [assumption|].
  pose proof (getTagSize_Done _ _ _ HS) as (_ & _ & Hhdr).
  apply frame_offsets_bounded; [lia | assumption |].
  intros frame Hin.
  destruct (walked_members _ _ _ _ _ Hwalk frame Hin) as (f & h0 & -> & Hf & Hh & _).
  apply load_range in Hh. exists f. repeat split; lia.
Qed.

Lemma getID3v2TagFrames_no_repeat_witness :
  NoDup [data_plus 10; data_plus 24]
  /\ Z.of_nat (List.length [data_plus 10; data_plus 24]) <= buf_size two_tags_buffer - 9.
Proof.
  apply (getID3v2TagFrames_no_repeat 5 two_tags_buffer 0 38).
  - vm_compute. reflexivity.
  - lia.
  - reflexivity.
  - reflexivity.
Defined.

Section WalkSafety.

Variable data : buffer.
Variables t start_pos tag_size : Z.

Hypothesis size_is_int : buf_size data < 2 ^ 31.
Hypothesis tag_nonneg : 0 <= t.
Hypothesis tag_inside : t + 10 <= buf_size data.

(** With the tag header inside the buffer the loop reads frame headers
    only after its bounds check. *)
Lemma getID3v2TagFrames_loop_inside_buffer (fuel : nat) (pos : Z) (frames : list ptr) :
  0 <= pos < 2 ^ 32 ->
  getID3v2TagFrames_loop fuel data (data_plus t) start_pos tag_size pos frames
  <> OutOfBounds.
Proof.
  revert pos frames. induction fuel as [| fuel IH]; intros pos frames Hpos.
  - discriminate.
  - cbn [getID3v2TagFrames_loop].
    destruct (_ <? _); [|discriminate].
    rewrite (walker_bounds_check data size_is_int) by assumption.
    destruct (Z.ltb_spec (buf_size data) (pos + 10)) as [| Hroom]; [discriminate|].
    destruct (load_in_bounds data pos) as [h0 ->]; [lia|]. cbn [bind].
    destruct (u8 h0 =? 0); [discriminate|].
    destruct (getFrameSize_in_bounds data t pos) as [n ->]; try lia. cbn [bind].
    apply IH. apply to_u32_range.
Qed.

End WalkSafety.

(** X8: for a tag header that lies inside the buffer, as every header
    reported by [getID3v2Tags] does, [getID3v2TagFrames] reads no byte
    outside the buffer, whatever the size fields say. *)
Theorem getID3v2TagFrames_inside_buffer (fuel : nat) (data : buffer) (tagStart : Z) :
  buf_size data < 2 ^ 31 ->
  0 <= tagStart ->
  tagStart + 10 <= buf_size data ->
  getID3v2TagFrames fuel data (data_plus tagStart) <> OutOfBounds.
Proof.
  intros Hint Htag Hin. unfold getID3v2TagFrames.
  destruct (load_size_in_bounds data (tagStart + off_tag_size) size7bitsToNormal)
    as [S HS]; [unfold off_tag_size; lia .. |].
  unfold getTagSize. rewrite HS. cbn [bind].
  apply getID3v2TagFrames_loop_inside_buffer; try assumption. apply to_u32_range.
Qed.

Lemma getID3v2TagFrames_inside_buffer_witness :
  getID3v2TagFrames 5 truncated_buffer (data_plus 0) <> OutOfBounds.
Proof.
  apply (getID3v2TagFrames_inside_buffer 5 truncated_buffer 0).
  - vm_compute. reflexivity.
  - lia.
  - vm_compute. discriminate.
Defined.

(** X9: the walk does not end when a frame of the tag declares a body of
    [2^32 - 10] bytes (size bytes FF FF FF F6 under the plain codec): the
    position comes back to the same frame, which is appended again and
    again, so that no number of iterations is enough.  Stated for the first
    frame of the tag. *)
Theorem getID3v2TagFrames_diverges
    (fuel : nat) (data : buffer) (tagStart S : Z) (h0 : byte) :
  buf_size data < 2 ^ 31 ->
  0 <= tagStart ->
  getTagSize data (data_plus tagStart) = Done S ->
  10 < S ->
  tagStart + 20 <= buf_size data ->
  load data (tagStart + 10) = Done h0 ->
  u8 h0 <> 0 ->
  getFrameSize data (data_plus tagStart) (data_plus (tagStart + 10)) = Done (2 ^ 32 - 10) ->
  getID3v2TagFrames fuel data (data_plus tagStart) = Timeout.
Proof.
  intros Hint Htag HS Hbig Hroom Hh Hnz Hn.
  pose proof (getTagSize_Done _ _ _ HS) as (HSrange & _ & Hhdr).
  unfold getID3v2TagFrames. rewrite HS. cbn [bind].
  rewrite start_pos_simpl by lia.
  generalize (@nil ptr). induction fuel as [| fuel IH]; intros frames; [reflexivity|].
  cbn [getID3v2TagFrames_loop].
  rewrite (walker_guard (tagStart + 10) S) by lia.
  rewrite (walker_bounds_check data Hint) by lia.
  destruct (Z.ltb_spec (tagStart + 10 + 10) (tagStart + 10 + S)); [|lia].
  destruct (Z.ltb_spec (buf_size data) (tagStart + 10 + 10)); [lia|].
  rewrite Hh. cbn [bind]. destruct (Z.eqb_spec (u8 h0) 0); [lia|].
  rewrite Hn. cbn [bind]. rewrite next_pos_simpl by lia.
  replace (to_u32 (tagStart + 10 + 10 + (2 ^ 32 - 10))) with (tagStart + 10).
  - apply IH.
  - unfold to_u32. replace (tagStart + 10 + 10 + (2 ^ 32 - 10))
      with (tagStart + 10 + 1 * 2 ^ 32) by lia.
    rewrite Z.mod_add by lia. symmetry. apply Z.mod_small. lia.
Qed.

Lemma getID3v2TagFrames_diverges_witness :
  getID3v2TagFrames 1000 looping_buffer (data_plus 0) = Timeout.
Proof.
  apply (getID3v2TagFrames_diverges 1000 looping_buffer 0 32 "T"%byte).
  - vm_compute. reflexivity.
  - lia.
  - reflexivity.
  - lia.
  - vm_compute. discriminate.
  - reflexivity.
  - vm_compute. discriminate.
  - reflexivity.
Defined.

(** ** More on the text decoder *)

(** X10: for a text frame whose body lies in the buffer, encodings 0
    (ISO-8859-1) and 3 (UTF-8) return the payload unchanged, all
    [size - 1] bytes after the encoding byte, NUL bytes included; an
    encoding byte above 3 gives the empty string. *)
Theorem getTextFrameData_pass_through
    (data : buffer) (tag : ptr) (f fsize : Z) (encoding : byte) :
  buf_size data < 2 ^ 31 ->
  0 <= f ->
  getFrameSize data tag (data_plus f) = Done fsize ->
  1 <= fsize ->
  f + 10 + fsize <= buf_size data ->
  load data (f + 10) = Done encoding ->
  (u8 encoding = 0 \/ u8 encoding = 3 ->
   getTextFrameData data tag (data_plus f) = Done (slice data (f + 11) (fsize - 1))
   /\ Z.of_nat (List.length (slice data (f + 11) (fsize - 1))) = fsize - 1)
  /\ (3 < u8 encoding -> getTextFrameData data tag (data_plus f) = Done []).
Proof.
  intros Hint Hf Hsize Hne Hin Henc.
  rewrite (getTextFrameData_inside data tag f fsize encoding) by assumption.
  split.
  - intros Hplain. rewrite slice_length by lia. split; [|lia].
    destruct Hplain as [H0 | H3].
    + rewrite H0. reflexivity.
    + rewrite H3. reflexivity.
  - intros Hother.
    destruct (Z.eqb_spec (u8 encoding) 0); [lia|].
    destruct (Z.eqb_spec (u8 encoding) 1); [lia|].
    destruct (Z.eqb_spec (u8 encoding) 2); [lia|].
    destruct (Z.eqb_spec (u8 encoding) 3); [lia|]. reflexivity.
Qed.

Lemma getTextFrameData_pass_through_witness :
  getTextFrameData text_frames_buffer (data_plus 0) (data_plus 10)
  = Done (slice text_frames_buffer (10 + 11) (3 - 1))
  /\ Z.of_nat (List.length (slice text_frames_buffer (10 + 11) (3 - 1))) = 3 - 1.
Proof.
  destruct (getTextFrameData_pass_through text_frames_buffer (data_plus 0) 10 3 x00)
    as [Hplain _].
  - vm_compute. reflexivity.
  - lia.
  - reflexivity.
  - lia.
  - vm_compute. discriminate.
  - reflexivity.
  - apply Hplain. left. reflexivity.
Defined.

(** With a frame size of [2^32 - 1] the UTF-16 loop cannot finish inside a
    buffer of fewer than [2^31] bytes. *)
Lemma utf16_text_loop_runs_out (data : buffer) (frame_data : Z) (fuel : nat) (i : Z)
    (result : list byte) :
  buf_size data < 2 ^ 31 -> 0 <= frame_data -> 0 <= i <= buf_size data + 1 ->
  forall r, utf16_text_loop fuel data frame_data (2 ^ 32 - 1) i result <> Done r.
Proof.
  intros Hint Hfd. revert i result.
  induction fuel as [| fuel IH]; intros i result Hi r; [discriminate|].
  cbn [utf16_text_loop]. destruct (Z.ltb_spec i (2 ^ 32 - 1)) as [_ | Hge]; [|lia].
  intros Hrun. bind_inv Hrun. apply load_range in E.
  rewrite to_u32_small in Hrun by lia. revert Hrun. apply IH. lia.
Qed.

(** X11: a text frame that declares a body of 0 bytes never yields text:
    [frame_size--] wraps around to [2^32 - 1] and the decoder reads outside
    the buffer, unless the byte after the frame header is above 3, in which
    case the result is the empty string. *)
Theorem getTextFrameData_empty_body (data : buffer) (tag : ptr) (f : Z) :
  buf_size data < 2 ^ 31 ->
  0 <= f ->
  getFrameSize data tag (data_plus f) = Done 0 ->
  getTextFrameData data tag (data_plus f) = OutOfBounds
  \/ (exists next, load data (f + 10) = Done next /\ 3 < u8 next
                   /\ getTextFrameData data tag (data_plus f) = Done []).
Proof.
  intros Hint Hf Hsize.
  pose proof (getTextFrameData_not_Timeout data tag f Hint Hf) as Hterm.
  pose proof (buf_size_nonneg data) as Hnn.
  unfold getTextFrameData, getFrameData, sizeof_ID3v2TagFrameHeader in *.
  change (f + (4 + 4 + 2)) with (f + 10) in *.
  rewrite Hsize in *. cbn [bind] in *.
  destruct (load data (f + 10)) as [next | |] eqn:Hnext; cbn [bind] in *;
    [|left; reflexivity | congruence].
  change (to_u32 (0 - 1)) with (2 ^ 32 - 1) in *.
  assert (load_string data (f + 10 + 1) (2 ^ 32 - 1) = OutOfBounds) as Hstring.
  { unfold load_string. destruct (Z.leb_spec (f + 10 + 1 + (2 ^ 32 - 1)) (buf_size data));
      [lia|]. rewrite andb_false_r. reflexivity. }
  destruct (u8 next =? 0) eqn:H0; [left; assumption|].
  destruct ((u8 next =? 1) || (u8 next =? 2)) eqn:H12.
  - left.
    pose proof (utf16_text_loop_runs_out data (f + 10 + 1) (S (List.length data)) 0 []
                  Hint ltac:(lia) ltac:(lia)) as Hno.
    destruct (utf16_text_loop _ data (f + 10 + 1) (2 ^ 32 - 1) 0 []) as [r | |].
    + exfalso. apply (Hno r). reflexivity.
    + reflexivity.
    + congruence.
  - destruct (u8 next =? 3) eqn:H3; [left; assumption|].
    right. exists next. split; [reflexivity|]. split; [|reflexivity].
    apply orb_false_iff in H12. destruct H12 as [H1 H2].
    apply Z.eqb_neq in H0, H1, H2, H3. pose proof (u8_range next). lia.
Qed.

Lemma getTextFrameData_empty_body_witness :
  getTextFrameData empty_frame_buffer (data_plus 0) (data_plus 10) = OutOfBounds
  \/ (exists next, load empty_frame_buffer (10 + 10) = Done next /\ 3 < u8 next
                   /\ getTextFrameData empty_frame_buffer (data_plus 0) (data_plus 10)
                      = Done []).
Proof.
  apply (getTextFrameData_empty_body empty_frame_buffer (data_plus 0) 10).
  - vm_compute. reflexivity.
  - lia.
  - reflexivity.
Defined.

Lemma even_bytes_utf16le (text rest : list byte) :
  even_bytes (utf16le text ++ rest) = text ++ even_bytes rest.
Proof.
  induction text as [| c text IH]; [reflexivity|].
  cbn [utf16le flat_map app even_bytes]. fold (utf16le text). rewrite IH. reflexivity.
Qed.

Lemma even_bytes_utf16be (text rest : list byte) :
  even_bytes (utf16be text ++ rest) = repeat NUL (List.length text) ++ even_bytes rest.
Proof.
  induction text as [| c text IH]; [reflexivity|].
  cbn [utf16be flat_map app even_bytes]. fold (utf16be text). rewrite IH. reflexivity.
Qed.

Lemma even_bytes_zeros (k : nat) : even_bytes (repeat NUL (2 * k)) = repeat NUL k.
Proof.
  induction k as [| k IH]; [reflexivity|].
  replace (2 * S k)%nat with (S (S (2 * k))) by lia.
  cbn [repeat even_bytes]. rewrite IH. reflexivity.
Qed.

Lemma filter_is_ascii_zeros (k : nat) : filter is_ascii (repeat NUL k) = [].
Proof. induction k as [| k IH]; [reflexivity | exact IH]. Qed.

Lemma filter_is_ascii_all (text : list byte) :
  Forall (fun c => 1 <= u8 c <= 127) text -> filter is_ascii text = text.
Proof.
  induction 1 as [| c text Hc _ IH]; [reflexivity|].
  cbn [filter]. unfold is_ascii at 1.
  destruct (Z.eqb_spec (u8 c) 0); [lia|]. destruct (Z.ltb_spec (u8 c) 128); [|lia].
  cbn [negb andb]. rewrite IH. reflexivity.
Qed.

(** X12: ASCII text stored as little-endian UTF-16 after the byte-order
    mark FF FE, with any number of terminating null code units, is returned
    as that text (encoding byte 1 or 2; the code treats both alike). *)
Theorem getTextFrameData_utf16le_ascii
    (data : buffer) (tag : ptr) (f fsize : Z) (encoding : byte)
    (text : list byte) (nulls : nat) :
  buf_size data < 2 ^ 31 ->
  0 <= f ->
  getFrameSize data tag (data_plus f) = Done fsize ->
  1 <= fsize ->
  f + 10 + fsize <= buf_size data ->
  load data (f + 10) = Done encoding ->
  u8 encoding = 1 \/ u8 encoding = 2 ->
  Forall (fun c => 1 <= u8 c <= 127) text ->
  slice data (f + 11) (fsize - 1) = [xff; xfe] ++ utf16le text ++ repeat NUL (2 * nulls) ->
  getTextFrameData data tag (data_plus f) = Done text.
Proof.
  intros Hint Hf Hsize Hne Hin Henc Hutf16 Hascii Hpayload.
  rewrite (getTextFrameData_inside data tag f fsize encoding) by assumption.
  destruct (Z.eqb_spec (u8 encoding) 0); [lia|].
  assert (((u8 encoding =? 1) || (u8 encoding =? 2)) = true) as ->.
  { apply orb_true_iff. rewrite !Z.eqb_eq. assumption. }
  rewrite Hpayload. cbn [app even_bytes].
  rewrite even_bytes_utf16le, even_bytes_zeros. cbn [filter].
  change (is_ascii xff) with false. cbn iota.
  rewrite filter_app, filter_is_ascii_zeros, app_nil_r, filter_is_ascii_all by assumption.
  reflexivity.
Qed.

Lemma getTextFrameData_utf16le_ascii_witness :
  getTextFrameData text_frames_buffer (data_plus 0) (data_plus 23) = Done (bytes_of "Hi").
Proof.
  apply (getTextFrameData_utf16le_ascii text_frames_buffer (data_plus 0) 23 7 x01
           (bytes_of "Hi") 0).
  - vm_compute. reflexivity.
  - lia.
  - reflexivity.
  - lia.
  - vm_compute. discriminate.
  - reflexivity.
  - left. reflexivity.
  - repeat constructor; vm_compute; discriminate.
  - reflexivity.
Defined.

(** X13: ASCII text stored as big-endian UTF-16, with or without the
    byte-order mark FE FF, is lost entirely: the decoder looks at the high
    byte of every code unit and returns the empty string. *)
Theorem getTextFrameData_utf16be_ascii
    (data : buffer) (tag : ptr) (f fsize : Z) (encoding : byte)
    (bom text : list byte) (nulls : nat) :
  buf_size data < 2 ^ 31 ->
  0 <= f ->
  getFrameSize data tag (data_plus f) = Done fsize ->
  1 <= fsize ->
  f + 10 + fsize <= buf_size data ->
  load data (f + 10) = Done encoding ->
  u8 encoding = 1 \/ u8 encoding = 2 ->
  bom = [] \/ bom = [xfe; xff] ->
  slice data (f + 11) (fsize - 1) = bom ++ utf16be text ++ repeat NUL (2 * nulls) ->
  getTextFrameData data tag (data_plus f) = Done [].
Proof.
  intros Hint Hf Hsize Hne Hin Henc Hutf16 Hbom Hpayload.
  rewrite (getTextFrameData_inside data tag f fsize encoding) by assumption.
  destruct (Z.eqb_spec (u8 encoding) 0); [lia|].
  assert (((u8 encoding =? 1) || (u8 encoding =? 2)) = true) as ->.
  { apply orb_true_iff. rewrite !Z.eqb_eq. assumption. }
  rewrite Hpayload.
  assert (filter is_ascii (even_bytes (utf16be text ++ repeat NUL (2 * nulls))) = [])
    as Hrest.
  { rewrite even_bytes_utf16be, even_bytes_zeros, <- repeat_app.
    apply filter_is_ascii_zeros. }
  destruct Hbom as [-> | ->]; cbn [app even_bytes filter].
  - rewrite Hrest. reflexivity.
  - change (is_ascii xfe) with false. cbn iota. rewrite Hrest. reflexivity.
Qed.

Lemma getTextFrameData_utf16be_ascii_witness :
  getTextFrameData text_frames_buffer (data_plus 0) (data_plus 40) = Done [].
Proof.
  apply (getTextFrameData_utf16be_ascii text_frames_buffer (data_plus 0) 40 5 x02
           [] (bytes_of "Hi") 0).
  - vm_compute. reflexivity.
  - lia.
  - reflexivity.
  - lia.
  - vm_compute. discriminate.
  - reflexivity.
  - right. reflexivity.
  - left. reflexivity.
  - reflexivity.
Defined.

(** ** More on the picture decoder *)

Lemma slice_skipn (data : buffer) (off n k : Z) :
  0 <= off -> 0 <= k ->
  slice data (off + k) (n - k) = skipn (Z.to_nat k) (slice data off n).
Proof.
  intros Hoff Hk. unfold slice. rewrite skipn_firstn_comm, skipn_skipn.
  f_equal; [lia|]. f_equal. lia.
Qed.

Lemma slice_after_prefix (data : buffer) (off n : Z) (prefix rest : list byte) :
  0 <= off ->
  slice data off n = prefix ++ rest ->
  slice data (off + Z.of_nat (List.length prefix)) (n - Z.of_nat (List.length prefix)) = rest.
Proof.
  intros Hoff Hslice. rewrite slice_skipn by lia. rewrite Hslice, Nat2Z.id.
  rewrite skipn_app, skipn_all, Nat.sub_diag. reflexivity.
Qed.

Lemma c_str_terminated (s rest : list byte) :
  Forall (fun c => is_nul c = false) s -> c_str (s ++ NUL :: rest) = s.
Proof.
  induction 1 as [| c s Hc _ IH]; [reflexivity|].
  cbn [app c_str]. rewrite Hc, IH. reflexivity.
Qed.

Lemma length16_terminated (us : list (byte * byte)) (rest : list byte) :
  Forall (fun u => is_nul (fst u) && is_nul (snd u) = false) us ->
  length16 (units us ++ NUL :: NUL :: rest) = List.length (units us).
Proof.
  induction 1 as [| [a b] us Hu _ IH]; [reflexivity|].
  cbn [units flat_map app length16 fst snd List.length] in *. fold (units us).
  rewrite Hu. rewrite IH. reflexivity.
Qed.

Section PictureFrame.

Variable data : buffer.
Variables frame_data frame_size : Z.

Hypothesis frame_data_nonneg : 0 <= frame_data.
Hypothesis size_is_int : buf_size data < 2 ^ 31.
Hypothesis frame_size_range : 1 <= frame_size < 2 ^ 32.
Hypothesis body_inside : frame_data + frame_size <= buf_size data.

(** The description loop for one-byte encodings stops at the first NUL or
    at the end of the frame. *)
Lemma skip_info_loop_spec (fuel : nat) (data_pos : Z) :
  0 <= data_pos < 2 ^ 31 -> (0 < fuel)%nat -> frame_size - data_pos < Z.of_nat fuel ->
  skip_info_loop fuel data frame_data frame_size data_pos
  = Done (data_pos
          + Z.of_nat (List.length
                        (c_str (slice data (frame_data + data_pos) (frame_size - data_pos))))).
Proof.
  revert data_pos.
  induction fuel as [| fuel IH]; intros data_pos Hpos Hfuel0 Hfuel; [lia|].
  cbn [skip_info_loop]. destruct (Z.ltb_spec data_pos frame_size) as [Hlt | Hge].
  - destruct (load_in_bounds data (frame_data + data_pos)) as [c Hc]; [lia|].
    rewrite Hc. cbn [bind]. rewrite (slice_step _ _ _ _ Hc) by lia. cbn [c_str].
    rewrite u8_zero_is_nul. destruct (is_nul c); cbn [negb List.length].
    + rewrite Z.add_0_r. reflexivity.
    + rewrite to_u32_small by lia. rewrite IH by lia.
      replace (frame_data + (data_pos + 1)) with (frame_data + data_pos + 1) by lia.
      replace (frame_size - (data_pos + 1)) with (frame_size - data_pos - 1) by lia.
      apply f_equal; lia.
  - rewrite slice_nil by lia. cbn [c_str List.length]. rewrite Z.add_0_r. reflexivity.
Qed.

(** The description loop for UTF-16 stops at the first unit 00 00, or when
    fewer than two bytes of the frame are left. *)
Lemma skip_info16_loop_spec (fuel : nat) (data_pos : Z) :
  0 <= data_pos < 2 ^ 31 -> (0 < fuel)%nat -> frame_size - data_pos < Z.of_nat fuel ->
  skip_info16_loop fuel data frame_data frame_size data_pos
  = Done (data_pos
          + Z.of_nat (length16 (slice data (frame_data + data_pos) (frame_size - data_pos)))).
Proof.
  revert data_pos.
  induction fuel as [| fuel IH]; intros data_pos Hpos Hfuel0 Hfuel; [lia|].
  cbn [skip_info16_loop]. rewrite (to_u32_small (frame_size - 1)) by lia.
  destruct (Z.ltb_spec data_pos (frame_size - 1)) as [Hlt | Hge].
  - destruct (load_in_bounds data (frame_data + data_pos)) as [c0 Hc0]; [lia|].
    destruct (load_in_bounds data (frame_data + data_pos + 1)) as [c1 Hc1]; [lia|].
    rewrite Hc0. cbn [bind]. rewrite (to_u32_small (data_pos + 1)) by lia.
    replace (frame_data + (data_pos + 1)) with (frame_data + data_pos + 1) by lia.
    rewrite (slice_step _ _ _ _ Hc0) by lia.
    rewrite (slice_step _ _ _ _ Hc1) by lia. cbn [length16].
    rewrite <- !u8_zero_is_nul.
    destruct (u8 c0 =? 0); cbn [andb bind].
    + rewrite Hc1. cbn [bind]. destruct (u8 c1 =? 0); cbn [negb].
      * rewrite Z.add_0_r. reflexivity.
      * rewrite to_u32_small by lia. rewrite IH by lia.
        replace (frame_data + (data_pos + 2)) with (frame_data + data_pos + 1 + 1) by lia.
        replace (frame_size - (data_pos + 2)) with (frame_size - data_pos - 1 - 1) by lia.
        apply f_equal; lia.
    + rewrite to_u32_small by lia. rewrite IH by lia.
      replace (frame_data + (data_pos + 2)) with (frame_data + data_pos + 1 + 1) by lia.
      replace (frame_size - (data_pos + 2)) with (frame_size - data_pos - 1 - 1) by lia.
      apply f_equal; lia.
  - assert (length16 (slice data (frame_data + data_pos) (frame_size - data_pos)) = 0%nat)
      as ->; [|rewrite Z.add_0_r; reflexivity].
    destruct (Z.le_gt_cases (frame_size - data_pos) 0) as [Hnone | Hone].
    + rewrite slice_nil by lia. reflexivity.
    + destruct (load_in_bounds data (frame_data + data_pos)) as [c0 Hc0]; [lia|].
      rewrite (slice_step _ _ _ _ Hc0) by lia. rewrite slice_nil by lia. reflexivity.
Qed.

End PictureFrame.

Lemma length16_le (s : list byte) : (length16 s <= List.length s)%nat.
Proof.
  assert (forall n (l : list byte), (List.length l <= n)%nat ->
                                    (length16 l <= List.length l)%nat) as Hgen.
  { induction n as [| n IH]; intros l Hl.
    - destruct l; [simpl; lia | simpl in Hl; lia].
    - destruct l as [| b0 [| b1 rest]]; cbn [length16 List.length] in *; try lia.
      destruct (is_nul b0 && is_nul b1); [lia|].
      specialize (IH rest ltac:(lia)). lia. }
  apply (Hgen (List.length s)). reflexivity.
Qed.

Lemma c_str_le (s : list byte) : (List.length (c_str s) <= List.length s)%nat.
Proof.
  induction s as [| c s IH]; [reflexivity|]. cbn [c_str].
  destruct (is_nul c); simpl; lia.
Qed.

(** The decoder on a frame inside the buffer. *)
Lemma getPictureFrameData_inside
    (data : buffer) (tag : ptr) (f fsize : Z) (encoding : byte) :
  buf_size data < 2 ^ 31 ->
  0 <= f ->
  getFrameSize data tag (data_plus f) = Done fsize ->
  1 <= fsize ->
  f + 10 + fsize <= buf_size data ->
  load data (f + 10) = Done encoding ->
  let scanned := c_str (slice data (f + 11) (fsize - 1)) in
  let data_pos := image_pos data (f + 10) fsize encoding in
  getPictureFrameData data tag (data_plus f)
  = Done (data_plus (f + 10 + data_pos),
          if is_empty scanned then default_mime_type else scanned,
          to_u32 (fsize - data_pos))
  /\ 3 <= data_pos <= fsize + 4.
Proof.
  intros Hint Hf Hsize Hne Hin Henc scanned data_pos.
  pose proof (getFrameSize_range _ _ _ _ Hsize) as Hrange.
  assert (Z.of_nat (List.length scanned) <= fsize - 1) as Hscanned.
  { pose proof (c_str_le (slice data (f + 11) (fsize - 1))) as Hle.
    rewrite slice_length in Hle by lia. subst scanned. lia. }
  set (info := 1 + Z.of_nat (List.length scanned) + 2).
  set (rest := slice data (f + 10 + info) (fsize - info)).
  assert (Z.of_nat (List.length rest) <= Z.max 0 (fsize - info)) as Hrest.
  { subst rest. unfold slice. rewrite length_firstn. lia. }
  pose proof (c_str_le rest) as Hc. pose proof (length16_le rest) as H16.
  assert (data_pos
          = if u8 encoding =? 0 then info + Z.of_nat (List.length (c_str rest)) + 1
            else if (u8 encoding =? 1) || (u8 encoding =? 2)
                 then info + Z.of_nat (length16 rest) + 2
                 else if u8 encoding =? 3
                      then info + Z.of_nat (List.length (c_str rest)) + 1
                      else info) as Hpos.
  { subst data_pos rest info scanned. unfold image_pos.
    replace (f + 10 + 1) with (f + 11) by lia. reflexivity. }
  split.
  - unfold getPictureFrameData, getFrameData, sizeof_ID3v2TagFrameHeader.
    change (f + (4 + 4 + 2)) with (f + 10).
    rewrite Hsize. cbn [bind]. rewrite Henc. cbn [bind].
    rewrite (mime_type_loop_spec data (f + 10) fsize) by (unfold buf_size in *; lia).
    cbn zeta. cbn [bind app].
    replace (f + 10 + 1) with (f + 11) by lia. fold scanned.
    rewrite (to_u32_small (1 + Z.of_nat (List.length scanned) + 1)) by lia.
    rewrite (to_u32_small (1 + Z.of_nat (List.length scanned) + 1 + 1)) by lia.
    replace (1 + Z.of_nat (List.length scanned) + 1 + 1) with info by (subst info; lia).
    rewrite (skip_info_loop_spec data (f + 10) fsize) by (unfold buf_size in *; lia).
    rewrite (skip_info16_loop_spec data (f + 10) fsize) by (unfold buf_size in *; lia).
    fold rest. rewrite Hpos.
    destruct (u8 encoding =? 0);
      [|destruct ((u8 encoding =? 1) || (u8 encoding =? 2));
        [|destruct (u8 encoding =? 3)]];
      cbn [bind]; rewrite ?to_u32_small by lia; reflexivity.
  - rewrite Hpos.
    destruct (u8 encoding =? 0);
      [|destruct ((u8 encoding =? 1) || (u8 encoding =? 2));
        [|destruct (u8 encoding =? 3)]]; lia.
Qed.

Lemma slice_head (data : buffer) (off n : Z) (b : byte) (rest : list byte) :
  0 <= off -> slice data off n = b :: rest -> load data off = Done b.
Proof.
  intros Hoff Hslice. apply load_Done_iff. split; [assumption|].
  unfold slice in Hslice.
  destruct (skipn (Z.to_nat off) data) as [| c tail] eqn:Hskip.
  - rewrite firstn_nil in Hslice. discriminate.
  - destruct (Z.to_nat n); [discriminate|]. cbn [firstn] in Hslice.
    injection Hslice as -> _.
    rewrite <- (Nat.add_0_r (Z.to_nat off)), <- nth_error_skipn, Hskip. reflexivity.
Qed.

Lemma slice_whole_length (data : buffer) (off n : Z) (content : list byte) :
  0 <= off -> 0 <= n -> off + n <= buf_size data ->
  slice data off n = content -> n = Z.of_nat (List.length content).
Proof.
  intros Hoff Hn Hin <-. rewrite slice_length by assumption. lia.
Qed.

(** X14: an APIC frame laid out as the format has it for a one-byte
    encoding (0 or 3): encoding byte, mime type, NUL, picture type,
    description, NUL, image.  The decoder returns the mime type ("image/jpeg"
    if it is empty), a pointer to the first image byte and the number of
    image bytes; the bytes it points to are the image. *)
Theorem getPictureFrameData_layout
    (data : buffer) (tag : ptr) (f fsize : Z) (encoding picture_type : byte)
    (mime info image : list byte) :
  buf_size data < 2 ^ 31 ->
  0 <= f ->
  getFrameSize data tag (data_plus f) = Done fsize ->
  f + 10 + fsize <= buf_size data ->
  slice data (f + 10) fsize
  = encoding :: mime ++ NUL :: picture_type :: info ++ NUL :: image ->
  u8 encoding = 0 \/ u8 encoding = 3 ->
  Forall (fun c => is_nul c = false) mime ->
  Forall (fun c => is_nul c = false) info ->
  let image_at :=
    f + 10 + 1 + Z.of_nat (List.length mime) + 2 + Z.of_nat (List.length info) + 1 in
  getPictureFrameData data tag (data_plus f)
  = Done (data_plus image_at,
          if is_empty mime then default_mime_type else mime,
          Z.of_nat (List.length image))
  /\ slice data image_at (Z.of_nat (List.length image)) = image.
Proof.
  intros Hint Hf Hsize Hin Hbody Henc Hmime Hinfo image_at.
  pose proof (getFrameSize_range _ _ _ _ Hsize) as Hrange.
  pose proof (slice_whole_length data (f + 10) fsize _
                ltac:(lia) ltac:(lia) ltac:(lia) Hbody) as Hlen.
  cbn [List.length] in Hlen. rewrite length_app in Hlen. cbn [List.length] in Hlen.
  rewrite length_app in Hlen. cbn [List.length] in Hlen.
  pose proof (slice_head data (f + 10) fsize _ _ ltac:(lia) Hbody) as Hload.
  assert (slice data (f + 11) (fsize - 1)
          = mime ++ NUL :: picture_type :: info ++ NUL :: image) as Hfield.
  { pose proof (slice_after_prefix data (f + 10) fsize [encoding] _ ltac:(lia) Hbody) as H.
    cbn [List.length] in H. replace (f + 10 + Z.of_nat 1) with (f + 11) in H by lia.
    replace (fsize - Z.of_nat 1) with (fsize - 1) in H by lia. exact H. }
  set (info_at := 1 + Z.of_nat (List.length mime) + 2).
  assert (slice data (f + 10 + info_at) (fsize - info_at) = info ++ NUL :: image) as Hrest.
  { pose proof (slice_after_prefix data (f + 10) fsize
                  (encoding :: mime ++ [NUL; picture_type]) (info ++ NUL :: image)
                  ltac:(lia)) as H.
    cbn [List.length] in H. rewrite length_app in H. cbn [List.length] in H.
    replace (Z.of_nat (S (List.length mime + 2))) with info_at in H by (subst info_at; lia).
    apply H. rewrite Hbody. cbn [app]. rewrite <- app_assoc. reflexivity. }
  assert (image_pos data (f + 10) fsize encoding
          = info_at + Z.of_nat (List.length info) + 1) as Hpos.
  { unfold image_pos. replace (f + 10 + 1) with (f + 11) by lia.
    rewrite Hfield, c_str_terminated by assumption. fold info_at.
    rewrite Hrest, c_str_terminated by assumption.
    destruct Henc as [-> | ->]; reflexivity. }
  destruct (getPictureFrameData_inside data tag f fsize encoding) as [Hrun _];
    try assumption; [lia|].
  cbn zeta in Hrun. rewrite Hpos, Hfield, c_str_terminated in Hrun by assumption.
  assert (f + 10 + (info_at + Z.of_nat (List.length info) + 1) = image_at) as Hat
      by (subst image_at info_at; lia).
  rewrite Hat in Hrun.
  replace (fsize - (info_at + Z.of_nat (List.length info) + 1))
    with (Z.of_nat (List.length image)) in Hrun by (subst info_at; lia).
  rewrite to_u32_small in Hrun by lia. split; [exact Hrun|].
  - pose proof (slice_after_prefix data (f + 10) fsize
                  (encoding :: mime ++ NUL :: picture_type :: info ++ [NUL]) image
                  ltac:(lia)) as H.
    cbn [List.length] in H. rewrite length_app in H. cbn [List.length] in H.
    rewrite length_app in H. cbn [List.length] in H.
    replace (f + 10 + Z.of_nat (S (List.length mime + S (S (List.length info + 1)))))
      with image_at in H by (subst image_at; lia).
    replace (fsize - Z.of_nat (S (List.length mime + S (S (List.length info + 1)))))
      with (Z.of_nat (List.length image)) in H by lia.
    apply H. rewrite Hbody. cbn [app].
    repeat (rewrite <- app_assoc; cbn [app]). reflexivity.
Qed.

Lemma getPictureFrameData_layout_witness :
  getPictureFrameData apic_png_buffer (data_plus 0) (data_plus 10)
  = Done (data_plus (10 + 10 + 1 + Z.of_nat (List.length (bytes_of "image/png")) + 2
                     + Z.of_nat (List.length (@nil byte)) + 1),
          if is_empty (bytes_of "image/png") then default_mime_type
          else bytes_of "image/png",
          Z.of_nat (List.length [x89; x50; x4e; x47]))
  /\ slice apic_png_buffer
           (10 + 10 + 1 + Z.of_nat (List.length (bytes_of "image/png")) + 2
            + Z.of_nat (List.length (@nil byte)) + 1)
           (Z.of_nat (List.length [x89; x50; x4e; x47]))
     = [x89; x50; x4e; x47].
Proof.
  apply (getPictureFrameData_layout apic_png_buffer (data_plus 0) 10 17 x00 x03
           (bytes_of "image/png") [] [x89; x50; x4e; x47]).
  - vm_compute. reflexivity.
  - lia.
  - reflexivity.
  - vm_compute. discriminate.
  - reflexivity.
  - left. reflexivity.
  - repeat constructor.
  - constructor.
Defined.

(** X15: the same for the UTF-16 encodings (1 or 2): the description is a
    sequence of two-byte units, none of them 00 00, closed by the unit
    00 00.  The decoder returns the mime type, a pointer to the first image
    byte and the number of image bytes. *)
Theorem getPictureFrameData_layout_utf16
    (data : buffer) (tag : ptr) (f fsize : Z) (encoding picture_type : byte)
    (mime image : list byte) (info : list (byte * byte)) :
  buf_size data < 2 ^ 31 ->
  0 <= f ->
  getFrameSize data tag (data_plus f) = Done fsize ->
  f + 10 + fsize <= buf_size data ->
  slice data (f + 10) fsize
  = encoding :: mime ++ NUL :: picture_type :: units info ++ NUL :: NUL :: image ->
  u8 encoding = 1 \/ u8 encoding = 2 ->
  Forall (fun c => is_nul c = false) mime ->
  Forall (fun u => is_nul (fst u) && is_nul (snd u) = false) info ->
  let image_at :=
    f + 10 + 1 + Z.of_nat (List.length mime) + 2 + Z.of_nat (List.length (units info)) + 2 in
  getPictureFrameData data tag (data_plus f)
  = Done (data_plus image_at,
          if is_empty mime then default_mime_type else mime,
          Z.of_nat (List.length image))
  /\ slice data image_at (Z.of_nat (List.length image)) = image.
Proof.
  intros Hint Hf Hsize Hin Hbody Henc Hmime Hinfo image_at.
  pose proof (getFrameSize_range _ _ _ _ Hsize) as Hrange.
  pose proof (slice_whole_length data (f + 10) fsize _
                ltac:(lia) ltac:(lia) ltac:(lia) Hbody) as Hlen.
  cbn [List.length] in Hlen. rewrite length_app in Hlen. cbn [List.length] in Hlen.
  rewrite length_app in Hlen. cbn [List.length] in Hlen.
  pose proof (slice_head data (f + 10) fsize _ _ ltac:(lia) Hbody) as Hload.
  assert (slice data (f + 11) (fsize - 1)
          = mime ++ NUL :: picture_type :: units info ++ NUL :: NUL :: image) as Hfield.
  { pose proof (slice_after_prefix data (f + 10) fsize [encoding] _ ltac:(lia) Hbody) as H.
    cbn [List.length] in H. replace (f + 10 + Z.of_nat 1) with (f + 11) in H by lia.
    replace (fsize - Z.of_nat 1) with (fsize - 1) in H by lia. exact H. }
  set (info_at := 1 + Z.of_nat (List.length mime) + 2).
  assert (slice data (f + 10 + info_at) (fsize - info_at)
          = units info ++ NUL :: NUL :: image) as Hrest.
  { pose proof (slice_after_prefix data (f + 10) fsize
                  (encoding :: mime ++ [NUL; picture_type])
                  (units info ++ NUL :: NUL :: image) ltac:(lia)) as H.
    cbn [List.length] in H. rewrite length_app in H. cbn [List.length] in H.
    replace (Z.of_nat (S (List.length mime + 2))) with info_at in H by (subst info_at; lia).
    apply H. rewrite Hbody. cbn [app]. rewrite <- app_assoc. reflexivity. }
  assert (image_pos data (f + 10) fsize encoding
          = info_at + Z.of_nat (List.length (units info)) + 2) as Hpos.
  { unfold image_pos. replace (f + 10 + 1) with (f + 11) by lia.
    rewrite Hfield, c_str_terminated by assumption. fold info_at.
    rewrite Hrest, length16_terminated by assumption.
    destruct Henc as [-> | ->]; reflexivity. }
  destruct (getPictureFrameData_inside data tag f fsize encoding) as [Hrun _];
    try assumption; [lia|].
  cbn zeta in Hrun. rewrite Hpos, Hfield, c_str_terminated in Hrun by assumption.
  assert (f + 10 + (info_at + Z.of_nat (List.length (units info)) + 2) = image_at) as Hat
      by (subst image_at info_at; lia).
  rewrite Hat in Hrun.
  replace (fsize - (info_at + Z.of_nat (List.length (units info)) + 2))
    with (Z.of_nat (List.length image)) in Hrun by (subst info_at; lia).
  rewrite to_u32_small in Hrun by lia. split; [exact Hrun|].
  pose proof (slice_after_prefix data (f + 10) fsize
                (encoding :: mime ++ NUL :: picture_type :: units info ++ [NUL; NUL]) image
                ltac:(lia)) as H.
  cbn [List.length] in H. rewrite length_app in H. cbn [List.length] in H.
  rewrite length_app in H. cbn [List.length] in H.
  replace (f + 10 + Z.of_nat (S (List.length mime + S (S (List.length (units info) + 2)))))
    with image_at in H by (subst image_at; lia).
  replace (fsize - Z.of_nat (S (List.length mime + S (S (List.length (units info) + 2)))))
    with (Z.of_nat (List.length image)) in H by lia.
  apply H. rewrite Hbody. cbn [app].
  repeat (rewrite <- app_assoc; cbn [app]). reflexivity.
Qed.

Lemma getPictureFrameData_layout_utf16_witness :
  getPictureFrameData apic_utf16_buffer (data_plus 0) (data_plus 10)
  = Done (data_plus (10 + 10 + 1 + Z.of_nat (List.length (bytes_of "image/png")) + 2
                     + Z.of_nat (List.length
                                   (units [(xff, xfe); ("H"%byte, x00); ("i"%byte, x00)]))
                     + 2),
          if is_empty (bytes_of "image/png") then default_mime_type
          else bytes_of "image/png",
          Z.of_nat (List.length [x89; x50; x4e; x47]))
  /\ slice apic_utf16_buffer
           (10 + 10 + 1 + Z.of_nat (List.length (bytes_of "image/png")) + 2
            + Z.of_nat (List.length
                          (units [(xff, xfe); ("H"%byte, x00); ("i"%byte, x00)]))
            + 2)
           (Z.of_nat (List.length [x89; x50; x4e; x47]))
     = [x89; x50; x4e; x47].
Proof.
  apply (getPictureFrameData_layout_utf16 apic_utf16_buffer (data_plus 0) 10 24 x01 x03
           (bytes_of "image/png") [x89; x50; x4e; x47]
           [(xff, xfe); ("H"%byte, x00); ("i"%byte, x00)]).
  - vm_compute. reflexivity.
  - lia.
  - reflexivity.
  - vm_compute. discriminate.
  - reflexivity.
  - left. reflexivity.
  - repeat constructor.
  - repeat constructor.
Defined.

(** X16: for every APIC frame whose body lies in the buffer, the pointer
    returned is between 3 bytes into the body and 4 bytes past its end.
    Either it is inside the body and the image runs exactly to the end of
    the frame, or it is past the end and the unsigned subtraction
    [frame_size - data_pos] has wrapped around to at least [2^32 - 4].  The
    second case occurs whenever the body has no NUL after its encoding
    byte. *)
Theorem getPictureFrameData_image_region
    (data : buffer) (tag : ptr) (f fsize : Z) :
  buf_size data < 2 ^ 31 ->
  0 <= f ->
  getFrameSize data tag (data_plus f) = Done fsize ->
  1 <= fsize ->
  f + 10 + fsize <= buf_size data ->
  exists image_at mime image_size,
    getPictureFrameData data tag (data_plus f) = Done (data_plus image_at, mime, image_size)
    /\ f + 10 + 3 <= image_at <= f + 10 + fsize + 4
    /\ ((image_at <= f + 10 + fsize /\ image_at + image_size = f + 10 + fsize)
        \/ (f + 10 + fsize < image_at /\ 2 ^ 32 - 4 <= image_size < 2 ^ 32))
    /\ (Forall (fun c => is_nul c = false) (slice data (f + 11) (fsize - 1)) ->
        f + 10 + fsize < image_at).
Proof.
  intros Hint Hf Hsize Hne Hin.
  pose proof (getFrameSize_range _ _ _ _ Hsize) as Hrange.
  destruct (load_in_bounds data (f + 10)) as [encoding Henc]; [lia|].
  destruct (getPictureFrameData_inside data tag f fsize encoding Hint Hf Hsize Hne Hin Henc)
    as [Hrun Hpos].
  cbn zeta in Hrun. set (data_pos := image_pos data (f + 10) fsize encoding) in *.
  eexists _, _, _. split; [exact Hrun|]. split; [lia|]. split.
  - destruct (Z.le_gt_cases data_pos fsize) as [Hle | Hgt].
    + left. rewrite to_u32_small by lia. lia.
    + right. split; [lia|]. unfold to_u32.
      replace (fsize - data_pos) with (2 ^ 32 - (data_pos - fsize) + (-1) * 2 ^ 32) by lia.
      rewrite Z.mod_add by lia. rewrite Z.mod_small by lia. lia.
  - intros Hnonul.
    assert (fsize + 2 <= data_pos); [|lia].
    subst data_pos. unfold image_pos.
    replace (f + 10 + 1) with (f + 11) by lia.
    rewrite (c_str_no_nul _ Hnonul), slice_length by lia.
    destruct (u8 encoding =? 0);
      [|destruct ((u8 encoding =? 1) || (u8 encoding =? 2));
        [|destruct (u8 encoding =? 3)]]; lia.
Qed.

Lemma getPictureFrameData_image_region_witness :
  exists image_at mime image_size,
    getPictureFrameData apic_unterminated_buffer (data_plus 0) (data_plus 10)
    = Done (data_plus image_at, mime, image_size)
    /\ 10 + 10 + 3 <= image_at <= 10 + 10 + 3 + 4
    /\ ((image_at <= 10 + 10 + 3 /\ image_at + image_size = 10 + 10 + 3)
        \/ (10 + 10 + 3 < image_at /\ 2 ^ 32 - 4 <= image_size < 2 ^ 32))
    /\ (Forall (fun c => is_nul c = false) (slice apic_unterminated_buffer (10 + 11) (3 - 1)) ->
        10 + 10 + 3 < image_at).
Proof.
  apply (getPictureFrameData_image_region apic_unterminated_buffer (data_plus 0) 10 3).
  - vm_compute. reflexivity.
  - lia.
  - reflexivity.
  - lia.
  - vm_compute. discriminate.
Defined.

(** ** More on the metadata assembler and the size codec *)

Lemma getPictureFrameData_pointer (data : buffer) (tag frame : ptr)
    (p : ptr) (mime : list byte) (sz : Z) :
  getPictureFrameData data tag frame = Done (p, mime, sz) ->
  (exists off, p = data_plus off) /\ 0 <= sz < 2 ^ 32 /\ mime <> [].
Proof.
  unfold getPictureFrameData. destruct (getFrameData frame) as [| frame_data];
    [discriminate|].
  intros H. bind_inv H. bind_inv H. bind_inv H. destruct v1 as [data_pos scanned].
  cbn zeta in H. bind_inv H. injection H as <- <- <-.
  split; [eauto|]. split; [apply to_u32_range|].
  destruct scanned; cbn [is_empty]; [|discriminate].
  vm_compute. discriminate.
Qed.

Lemma getMetadata_frame_consistent (data : buffer) (tag frame : ptr) (m m' : MP3_Metadata) :
  picture_consistent m ->
  getMetadata_frame data tag frame m = Done m' ->
  picture_consistent m'.
Proof.
  intros Hm Hrun. unfold getMetadata_frame in Hrun. bind_inv Hrun.
  repeat match type of Hrun with
         | context [strcmp_eq ?id ?lit] => destruct (strcmp_eq id lit); cbn [orb] in Hrun
         end;
    try (bind_inv Hrun; injection Hrun as <-; exact Hm);
    try (injection Hrun as <-; exact Hm).
  bind_inv Hrun. destruct v0 as [[p mime] sz]. injection Hrun as <-.
  apply getPictureFrameData_pointer in E0. destruct E0 as ((off & ->) & Hsz & Hmime).
  destruct Hm as [Hdesc _]. split; [exact Hdesc|].
  right. exists off, sz. cbn. auto.
Qed.

Lemma assemble_consistent (data : buffer) (scanned : list (ptr * ptr)) (m m' : MP3_Metadata) :
  picture_consistent m -> assemble data scanned m = Done m' -> picture_consistent m'.
Proof.
  revert m. induction scanned as [| [tag frame] scanned IH]; intros m Hm Hrun.
  - injection Hrun as <-. assumption.
  - cbn [assemble] in Hrun. bind_inv Hrun.
    eapply IH; [|eassumption]. eapply getMetadata_frame_consistent; eassumption.
Qed.

(** X17: in every record [getMetadata] returns, [description] is empty (no
    frame assigns it).  The picture members go together: either no APIC
    frame was decoded, and then [image_data] and [image_size] are still
    uninitialized and [mime_type] is empty; or [image_data] is a pointer
    [data + off], never null, [image_size] is an unsigned 32-bit value and
    [mime_type] is not empty.  So a non-empty [mime_type]
    is the mark of a decoded picture. *)
Theorem getMetadata_picture_members (fuel : nat) (data : buffer) (m : MP3_Metadata) :
  getMetadata fuel data = Done m ->
  description m = []
  /\ ((image_data m = Indeterminate /\ image_size m = Indeterminate /\ mime_type m = [])
      \/ (exists off sz, image_data m = Known (data_plus off)
                         /\ image_size m = Known sz /\ 0 <= sz < 2 ^ 32
                         /\ mime_type m <> [])).
Proof.
  intros Hrun. unfold getMetadata in Hrun. bind_inv Hrun.
  apply getMetadata_tags_assemble in Hrun. destruct Hrun as (scanned & _ & Hrun).
  apply (assemble_consistent data scanned new_metadata m); [|assumption].
  split; [reflexivity|]. left. repeat split.
Qed.

Lemma getMetadata_picture_members_witness :
  description (set_picture (data_plus 33) (bytes_of "image/png") 4 new_metadata) = []
  /\ ((image_data (set_picture (data_plus 33) (bytes_of "image/png") 4 new_metadata)
       = Indeterminate
       /\ image_size (set_picture (data_plus 33) (bytes_of "image/png") 4 new_metadata)
          = Indeterminate
       /\ mime_type (set_picture (data_plus 33) (bytes_of "image/png") 4 new_metadata) = [])
      \/ (exists off sz,
             image_data (set_picture (data_plus 33) (bytes_of "image/png") 4 new_metadata)
             = Known (data_plus off)
             /\ image_size (set_picture (data_plus 33) (bytes_of "image/png") 4 new_metadata)
                = Known sz
             /\ 0 <= sz < 2 ^ 32
             /\ mime_type (set_picture (data_plus 33) (bytes_of "image/png") 4 new_metadata)
                <> [])).
Proof.
  apply (getMetadata_picture_members 5 apic_png_buffer). reflexivity.
Defined.

(** X18: on a buffer of at least 10 bytes that does not hold "ID3" at any
    offset below [size - 10], [getMetadata] returns the record as it was
    declared: the eight strings empty, [image_data] and [image_size] never
    assigned. *)
Theorem getMetadata_no_tag (fuel : nat) (data : buffer) :
  10 <= buf_size data < 2 ^ 31 ->
  (forall i, 0 <= i < buf_size data - 10 -> slice data i 3 <> bytes_of "ID3") ->
  getMetadata fuel data
  = Done (mkMetadata [] [] [] [] [] [] [] [] Indeterminate Indeterminate).
Proof.
  intros Hsize Hnone. unfold getMetadata. rewrite getID3v2Tags_spec by assumption.
  assert (id3_offsets data = []) as ->; [|reflexivity].
  destruct (id3_offsets data) as [| i rest] eqn:Hoffs; [reflexivity|].
  assert (In i (id3_offsets data)) as Hin by (rewrite Hoffs; left; reflexivity).
  apply id3_offsets_spec in Hin. destruct Hin as [Hi Hid].
  exfalso. exact (Hnone i Hi Hid).
Qed.

Lemma getMetadata_no_tag_witness :
  getMetadata 0 untagged_buffer
  = Done (mkMetadata [] [] [] [] [] [] [] [] Indeterminate Indeterminate).
Proof.
  apply (getMetadata_no_tag 0 untagged_buffer).
  - vm_compute. split; discriminate || reflexivity.
  - intros i Hi. change (buf_size untagged_buffer - 10) with 6 in Hi.
    assert (i = 0 \/ i = 1 \/ i = 2 \/ i = 3 \/ i = 4 \/ i = 5) as Hcases by lia.
    destruct Hcases as [-> | [-> | [-> | [-> | [-> | ->]]]]]; vm_compute; discriminate.
Defined.

Lemma getTextFrameData_returns (data : buffer) (tag : ptr) (f fsize : Z) :
  buf_size data < 2 ^ 31 -> 0 <= f ->
  getFrameSize data tag (data_plus f) = Done fsize ->
  1 <= fsize -> f + 10 + fsize <= buf_size data ->
  exists s, getTextFrameData data tag (data_plus f) = Done s.
Proof.
  intros Hint Hf Hsize Hne Hin.
  destruct (load_in_bounds data (f + 10)) as [encoding Henc]; [lia|].
  rewrite (getTextFrameData_inside data tag f fsize encoding) by assumption. eauto.
Qed.

Lemma getPictureFrameData_returns (data : buffer) (tag : ptr) (f fsize : Z) :
  buf_size data < 2 ^ 31 -> 0 <= f ->
  getFrameSize data tag (data_plus f) = Done fsize ->
  1 <= fsize -> f + 10 + fsize <= buf_size data ->
  exists r, getPictureFrameData data tag (data_plus f) = Done r.
Proof.
  intros Hint Hf Hsize Hne Hin.
  destruct (load_in_bounds data (f + 10)) as [encoding Henc]; [lia|].
  destruct (getPictureFrameData_inside data tag f fsize encoding Hint Hf Hsize Hne Hin Henc)
    as [Hrun _].
  cbn zeta in Hrun. rewrite Hrun. eauto.
Qed.

Lemma load_frame_id_inside (data : buffer) (f : Z) :
  0 <= f -> f + 4 <= buf_size data ->
  exists h0 h1 h2 h3,
    load_frame_id data (data_plus f) = Done [h0; h1; h2; h3; NUL]
    /\ frame_header_id data (data_plus f) = [h0; h1; h2; h3].
Proof.
  intros Hf0 Hf.
  destruct (load_in_bounds data f) as [h0 E0]; [lia|].
  destruct (load_in_bounds data (f + 1)) as [h1 E1]; [lia|].
  destruct (load_in_bounds data (f + 2)) as [h2 E2]; [lia|].
  destruct (load_in_bounds data (f + 3)) as [h3 E3]; [lia|].
  exists h0, h1, h2, h3.
  assert (load_frame_id data (data_plus f) = Done [h0; h1; h2; h3; NUL]) as Hid.
  { unfold load_frame_id. rewrite E0, E1, E2, E3. reflexivity. }
  split; [assumption|].
  destruct (load_frame_id_Done _ _ _ Hid) as (a & b & c & d & [= <- <- <- <-] & Hslice).
  assumption.
Qed.

(** One pass of the loop body returns when the frame header is inside the
    buffer and, for a recognized identifier, the body is too. *)
Lemma getMetadata_frame_returns (data : buffer) (tag : ptr) (f : Z) (m : MP3_Metadata) :
  buf_size data < 2 ^ 31 ->
  0 <= f -> f + 4 <= buf_size data ->
  (frame_field data (data_plus f) <> None ->
   exists fsize, getFrameSize data tag (data_plus f) = Done fsize
                 /\ 1 <= fsize /\ f + 10 + fsize <= buf_size data) ->
  exists m', getMetadata_frame data tag (data_plus f) m = Done m'.
Proof.
  intros Hint Hf0 Hf Hbody.
  destruct (load_frame_id_inside data f Hf0 Hf) as (h0 & h1 & h2 & h3 & Hid & Hhdr).
  unfold getMetadata_frame. rewrite Hid. cbn [bind].
  rewrite !strcmp_eq_frame_id by reflexivity.
  unfold frame_field in Hbody. rewrite Hhdr in Hbody. unfold field_of_id in Hbody.
  repeat match goal with
         | |- context [bytes_eqb ?id ?lit] =>
             destruct (bytes_eqb id lit); cbn [orb]
         end;
    try (destruct Hbody as (fsize & Hsize & Hne & Hin); [discriminate|];
         first
           [ destruct (getTextFrameData_returns data tag f fsize) as [s ->];
             try assumption; cbn [bind]; eauto
           | destruct (getPictureFrameData_returns data tag f fsize) as [[[p mime] sz] ->];
             try assumption; cbn [bind]; eauto ]).
  eauto.
Qed.

Lemma assemble_returns (data : buffer) (scanned : list (ptr * ptr)) (m : MP3_Metadata) :
  buf_size data < 2 ^ 31 ->
  (forall tag frame, In (tag, frame) scanned ->
     exists f, frame = data_plus f /\ 0 <= f /\ f + 10 <= buf_size data) ->
  (forall tag f, In (tag, data_plus f) scanned ->
     frame_field data (data_plus f) <> None ->
     exists fsize, getFrameSize data tag (data_plus f) = Done fsize
                   /\ 1 <= fsize /\ f + 10 + fsize <= buf_size data) ->
  exists m', assemble data scanned m = Done m'.
Proof.
  intros Hint. revert m.
  induction scanned as [| [tag frame] scanned IH]; intros m Hhdr Hbody; [simpl; eauto|].
  cbn [assemble].
  destruct (Hhdr tag frame (or_introl eq_refl)) as (f & -> & Hf0 & Hf).
  destruct (getMetadata_frame_returns data tag f m) as [m1 ->]; try assumption; try lia.
  - apply Hbody. left. reflexivity.
  - cbn [bind]. apply IH.
    + intros t fr Hin. apply (Hhdr t fr). right. assumption.
    + intros t fr Hin. apply (Hbody t fr). right. assumption.
Qed.

Lemma getMetadata_tags_of_assemble (fuel : nat) (data : buffer) (tags : list ptr)
    (scanned : list (ptr * ptr)) (m m' : MP3_Metadata) :
  scan_tags fuel data tags = Done scanned ->
  assemble data scanned m = Done m' ->
  getMetadata_tags fuel data tags m = Done m'.
Proof.
  revert scanned m. induction tags as [| tag rest IH]; intros scanned m Hscan Hrun.
  - injection Hscan as <-. exact Hrun.
  - cbn [scan_tags getMetadata_tags] in *. bind_inv Hscan. bind_inv Hscan.
    injection Hscan as <-. rewrite E. cbn [bind].
    rewrite assemble_app in Hrun. bind_inv Hrun.
    rewrite getMetadata_frames_assemble, E1. cbn [bind]. eapply IH; eassumption.
Qed.

(** The frames of a scan come from walks over located tags, so their
    headers are inside the buffer. *)
Lemma scan_tags_headers (fuel : nat) (data : buffer) (tags : list ptr)
    (scanned : list (ptr * ptr)) :
  buf_size data < 2 ^ 31 ->
  (forall tag, In tag tags -> exists t, tag = data_plus t /\ 0 <= t) ->
  scan_tags fuel data tags = Done scanned ->
  forall tag frame, In (tag, frame) scanned ->
    exists f, frame = data_plus f /\ 0 <= f /\ f + 10 <= buf_size data.
Proof.
  intros Hint. revert scanned.
  induction tags as [| tag0 rest IH]; intros scanned Htags Hscan tag frame Hin.
  - injection Hscan as <-. destruct Hin.
  - cbn [scan_tags] in Hscan. bind_inv Hscan. bind_inv Hscan. injection Hscan as <-.
    apply in_app_or in Hin. destruct Hin as [Hin | Hin].
    + apply in_map_iff in Hin. destruct Hin as (fr & [= <- <-] & Hfr).
      destruct (Htags tag0 (or_introl eq_refl)) as (t & -> & Ht).
      assert (exists S, getTagSize data (data_plus t) = Done S) as [S HS].
      { unfold getID3v2TagFrames in E.
        destruct (getTagSize data (data_plus t)) as [S | |]; try discriminate; eauto. }
      pose proof (getID3v2TagFrames_walked _ _ _ _ _ Hint Ht HS E) as Hwalk.
      destruct (walked_members _ _ _ _ _ Hwalk fr Hfr) as (f & h0 & -> & Hf & Hh & _).
      apply load_range in Hh. exists f. repeat split; lia.
    + eapply IH; try eassumption.
      intros t Ht. apply Htags. right. assumption.
Qed.

(** X19: [getMetadata] returns a record, reading nothing outside the
    buffer, whenever the frame walks end and every scanned frame with a
    recognized identifier (TIT2, TPE1, TALB, TYER, TDRC, TRCK, TCON, APIC)
    declares a body of at least one byte that lies inside the buffer.
    Frames with other identifiers may declare any size. *)
Theorem getMetadata_returns
    (fuel : nat) (data : buffer) (tags : list ptr) (scanned : list (ptr * ptr)) :
  buf_size data < 2 ^ 31 ->
  getID3v2Tags data = Done tags ->
  scan_tags fuel data tags = Done scanned ->
  (forall tag f, In (tag, data_plus f) scanned ->
     frame_field data (data_plus f) <> None ->
     exists fsize, getFrameSize data tag (data_plus f) = Done fsize
                   /\ 1 <= fsize /\ f + 10 + fsize <= buf_size data) ->
  exists m, getMetadata fuel data = Done m.
Proof.
  intros Hint Htags Hscan Hbody.
  assert (forall tag, In tag tags -> exists t, tag = data_plus t /\ 0 <= t) as Hlocated.
  { destruct (Z.lt_ge_cases (buf_size data) 10) as [Hshort | Hlong].
    - rewrite getID3v2Tags_short in Htags by assumption. discriminate.
    - rewrite getID3v2Tags_spec in Htags by lia. injection Htags as <-.
      intros tag Hin. apply in_map_iff in Hin. destruct Hin as (t & <- & Ht).
      apply id3_offsets_spec in Ht. exists t. split; [reflexivity | lia]. }
  destruct (assemble_returns data scanned new_metadata Hint) as [m Hm].
  - apply (scan_tags_headers fuel data tags); assumption.
  - assumption.
  - exists m. unfold getMetadata. rewrite Htags. cbn [bind].
    eapply getMetadata_tags_of_assemble; eassumption.
Qed.

Lemma getMetadata_returns_witness :
  exists m, getMetadata 5 two_tags_buffer = Done m.
Proof.
  apply (getMetadata_returns 5 two_tags_buffer
           [data_plus 0; data_plus 48]
           [(data_plus 0, data_plus 10); (data_plus 0, data_plus 24);
            (data_plus 48, data_plus 58)]).
  - vm_compute. reflexivity.
  - reflexivity.
  - reflexivity.
  - intros tag f Hin _.
    destruct Hin as [[= <- <-] | [[= <- <-] | [[= <- <-] | []]]].
    + exists 4. split; [reflexivity|]. split; [lia | vm_compute; discriminate].
    + exists 4. split; [reflexivity|]. split; [lia | vm_compute; discriminate].
    + exists 6. split; [reflexivity|]. split; [lia | vm_compute; discriminate].
Defined.

Lemma size7bitsToNormal_sum (s0 s1 s2 s3 : byte) :
  u8 s1 < 128 -> u8 s2 < 128 -> u8 s3 < 128 ->
  size7bitsToNormal s0 s1 s2 s3
  = u8 s0 * 2 ^ 21 + u8 s1 * 2 ^ 14 + u8 s2 * 2 ^ 7 + u8 s3.
Proof.
  pose proof (u8_range s0). pose proof (u8_range s1).
  pose proof (u8_range s2). pose proof (u8_range s3).
  intros Hs1 Hs2 Hs3.
  unfold size7bitsToNormal, to_u32.
  rewrite !Z.shiftl_mul_pow2 by lia.
  rewrite (lor_high_low (u8 s0) _ 21) by lia.
  replace (u8 s0 * 2 ^ 21 + u8 s1 * 2 ^ 14) with ((u8 s0 * 2 ^ 7 + u8 s1) * 2 ^ 14) by lia.
  rewrite (lor_high_low _ _ 14) by lia.
  replace ((u8 s0 * 2 ^ 7 + u8 s1) * 2 ^ 14 + u8 s2 * 2 ^ 7)
    with ((u8 s0 * 2 ^ 14 + u8 s1 * 2 ^ 7 + u8 s2) * 2 ^ 7) by lia.
  rewrite (lor_high_low _ _ 7) by lia.
  rewrite Z.mod_small by lia. lia.
Qed.

(** X20: different size fields decode to different sizes: the plain codec
    is one-to-one on all four-byte fields, and the 7-bit codec is one-to-one
    on the fields whose bytes are all below 128, where its values stay
    below [2^28]. *)
Theorem size_codecs_one_to_one (s0 s1 s2 s3 t0 t1 t2 t3 : byte) :
  (size8bitsToNormal s0 s1 s2 s3 = size8bitsToNormal t0 t1 t2 t3 ->
   s0 = t0 /\ s1 = t1 /\ s2 = t2 /\ s3 = t3)
  /\ (u8 s0 < 128 /\ u8 s1 < 128 /\ u8 s2 < 128 /\ u8 s3 < 128 ->
      0 <= size7bitsToNormal s0 s1 s2 s3 < 2 ^ 28)
  /\ (u8 s0 < 128 /\ u8 s1 < 128 /\ u8 s2 < 128 /\ u8 s3 < 128 ->
      u8 t0 < 128 /\ u8 t1 < 128 /\ u8 t2 < 128 /\ u8 t3 < 128 ->
      size7bitsToNormal s0 s1 s2 s3 = size7bitsToNormal t0 t1 t2 t3 ->
      s0 = t0 /\ s1 = t1 /\ s2 = t2 /\ s3 = t3).
Proof.
  pose proof (u8_range s0). pose proof (u8_range s1).
  pose proof (u8_range s2). pose proof (u8_range s3).
  pose proof (u8_range t0). pose proof (u8_range t1).
  pose proof (u8_range t2). pose proof (u8_range t3).
  split; [|split].
  - rewrite !size8bitsToNormal_big_endian. intros Heq.
    repeat split; apply u8_inj; lia.
  - intros (Hs0 & Hs1 & Hs2 & Hs3). rewrite size7bitsToNormal_sum by assumption. lia.
  - intros (Hs0 & Hs1 & Hs2 & Hs3) (Ht0 & Ht1 & Ht2 & Ht3).
    rewrite !size7bitsToNormal_sum by assumption. intros Heq.
    repeat split; apply u8_inj; lia.
Qed.

Lemma size_codecs_one_to_one_witness :
  (x00 = x00 /\ x00 = x00 /\ x02 = x02 /\ x01 = x01)
  /\ 0 <= size7bitsToNormal x00 x00 x02 x01 < 2 ^ 28
  /\ (x00 = x00 /\ x00 = x00 /\ x02 = x02 /\ x01 = x01).
Proof.
  destruct (size_codecs_one_to_one x00 x00 x02 x01 x00 x00 x02 x01)
    as (Hplain & Hbound & Hsafe).
  split; [apply Hplain; reflexivity|].
  split; [apply Hbound; vm_compute; repeat split; reflexivity|].
  apply Hsafe; [vm_compute; repeat split; reflexivity .. | reflexivity].
Defined.

(** ** Walks over ID3v2.4 tags *)

Lemma ascending_snoc (frames : list ptr) (pos : Z) :
  ascending frames ->
  (forall off, In (data_plus off) frames -> off < pos) ->
  ascending (frames ++ [data_plus pos]).
Proof.
  induction 1 as [| off ps Hps IH Hlt]; intros Hbelow.
  - cbn [app]. constructor; [constructor|]. intros off' [].
  - cbn [app]. constructor.
    + apply IH. intros off' Hin. apply Hbelow. right. assumption.
    + intros off' Hin. apply in_app_or in Hin. destruct Hin as [Hin | [[= <-] | []]].
      * apply Hlt. assumption.
      * apply Hbelow. left. reflexivity.
Qed.

Section WalkV4.

Variable data : buffer.
Variables t start_pos tag_size : Z.
Variable major : byte.

Hypothesis size_is_int : buf_size data < 2 ^ 31.
Hypothesis tag_nonneg : 0 <= t.
Hypothesis tag_inside : t + 10 <= buf_size data.
Hypothesis tag_major : load data (t + off_version_major) = Done major.
Hypothesis version_4 : u8 major = 4.

(** Under the 7-bit codec a frame size is below [2^29], so the position
    moves forward without wrapping and the loop ends. *)
Lemma getID3v2TagFrames_loop_v4 (fuel : nat) (pos : Z) (frames : list ptr) :
  0 <= pos < 2 ^ 32 ->
  (0 < fuel)%nat -> buf_size data - pos < Z.of_nat fuel ->
  ascending frames ->
  (forall off, In (data_plus off) frames -> off < pos) ->
  exists result,
    getID3v2TagFrames_loop fuel data (data_plus t) start_pos tag_size pos frames = Done result
    /\ ascending result.
Proof.
  revert pos frames.
  induction fuel as [| fuel IH]; intros pos frames Hpos Hfuel0 Hfuel Hasc Hbelow; [lia|].
  cbn [getID3v2TagFrames_loop].
  destruct (_ <? _); [|eauto].
  rewrite (walker_bounds_check data size_is_int) by assumption.
  destruct (Z.ltb_spec (buf_size data) (pos + 10)) as [| Hroom]; [eauto|].
  destruct (load_in_bounds data pos) as [h0 ->]; [lia|]. cbn [bind].
  destruct (u8 h0 =? 0); [eauto|].
  assert (exists n, getFrameSize data (data_plus t) (data_plus pos) = Done n
                    /\ 0 <= n < 2 ^ 29) as (n & Hn & Hrange).
  { unfold getFrameSize. rewrite tag_major. cbn [bind]. rewrite version_4. cbn [Z.eqb].
    change (4 =? 4) with true. cbn iota.
    destruct (load_size_in_bounds data (pos + off_frame_size) size7bitsToNormal)
      as [n Hn]; [unfold off_frame_size; lia .. |].
    exists n. split; [assumption|].
    apply load_size_Done in Hn. destruct Hn as (s0 & s1 & s2 & s3 & _ & -> & _).
    apply size7bitsToNormal_range. }
  rewrite Hn. cbn [bind]. rewrite next_pos_simpl by lia.
  rewrite (to_u32_small (pos + 10 + n)) by lia.
  apply IH; try lia.
  - apply ascending_snoc; assumption.
  - intros off Hin. apply in_app_or in Hin. destruct Hin as [Hin | [[= <-] | []]].
    + specialize (Hbelow off Hin). lia.
    + lia.
Qed.

End WalkV4.

(** X21: for a tag of major version 4 whose header lies inside the buffer,
    [getID3v2TagFrames] always terminates, within [size + 1] iterations, and
    the frames it returns are at strictly increasing offsets: a 7-bit frame
    size is below [2^29], so the position cannot wrap around. *)
Theorem getID3v2TagFrames_v4_terminates (data : buffer) (tagStart : Z) (major : byte) :
  buf_size data < 2 ^ 31 ->
  0 <= tagStart ->
  tagStart + 10 <= buf_size data ->
  load data (tagStart + off_version_major) = Done major ->
  u8 major = 4 ->
  exists frames,
    getID3v2TagFrames (S (List.length data)) data (data_plus tagStart) = Done frames
    /\ ascending frames.
Proof.
  intros Hint Htag Hin Hmajor Hv4. unfold getID3v2TagFrames.
  destruct (load_size_in_bounds data (tagStart + off_tag_size) size7bitsToNormal)
    as [S HS]; [unfold off_tag_size; lia .. |].
  unfold getTagSize. rewrite HS. cbn [bind].
  rewrite start_pos_simpl by lia.
  apply (getID3v2TagFrames_loop_v4 data tagStart (tagStart + 10) S major);
    try assumption; try lia.
  - unfold buf_size. lia.
  - constructor.
  - intros off [].
Qed.

Lemma getID3v2TagFrames_v4_terminates_witness :
  exists frames,
    getID3v2TagFrames (S (List.length v4_buffer)) v4_buffer (data_plus 0) = Done frames
    /\ ascending frames.
Proof.
  apply (getID3v2TagFrames_v4_terminates v4_buffer 0 x04).
  - vm_compute. reflexivity.
  - lia.
  - vm_compute. discriminate.
  - reflexivity.
  - reflexivity.
Defined.

(** ** The assembled record *)


